(** * SaveYjy-R client code: service-worker cache strategies, theme manager,
      icon fallback and the performance optimizer's memory cache, queue,
      preloading and data-saving mode.

    The JavaScript sources are embedded as executable Rocq functions.
    - Numbers that the code manipulates (millisecond timestamps, byte
      estimates, priorities) are integers far below 2^53 and are modelled
      by [Z].
    - Strings are sequences of bytes; [includes], [startsWith] and
      [endsWith] behave on them as they do on the JavaScript strings.
    - Property access on an object literal follows the language: an own
      property first, then the properties inherited from
      [Object.prototype]; truthiness is the one of JavaScript.
    - The browser platform (Cache Storage, [fetch], [Date.now],
      [localStorage], the DOM) is modelled by explicit state: a cache
      maps request URLs to responses and [put] takes effect at once, and
      the network is an oracle that either resolves with a response or
      rejects. A response object carries the guard of its headers: the
      headers of a response that [fetch] resolved with or that a cache
      gave are immutable, also on a clone, and [headers.set] throws a
      [TypeError] on them. The value of a header is a byte string, one
      character for each byte. *)

From Stdlib Require Import ZArith String Ascii List Lia Bool Sorted Permutation.
From stdpp Require Import gmap strings list.

Open Scope string_scope.
Open Scope Z_scope.

(* ===================================================================== *)
(** ** JavaScript string primitives used by the sources *)
(* ===================================================================== *)

Module JsString.

(** [s.startsWith(p)] *)
Definition startsWith (p s : string) : bool := String.prefix p s.

(** [s.includes(sub)]: [sub] occurs at some offset of [s]. *)
Fixpoint includes (sub s : string) : bool :=
  String.prefix sub s ||
  match s with
  | EmptyString => false
  | String _ s' => includes sub s'
  end.

(** [s.endsWith(suf)], also the regular expressions [/\.ext$/]. *)
Fixpoint endsWith (suf s : string) : bool :=
  String.eqb suf s ||
  match s with
  | EmptyString => false
  | String _ s' => endsWith suf s'
  end.

(** JavaScript truthiness of a string: only the empty string is falsy. *)
Definition truthy (s : string) : bool :=
  match s with EmptyString => false | String _ _ => true end.

(** Value of a character as a digit in a radix up to 36. *)
Definition digit_of_ascii (c : ascii) : option Z :=
  let n := Z.of_N (N_of_ascii c) in
  if (48 <=? n) && (n <=? 57) then Some (n - 48)
  else if (97 <=? n) && (n <=? 122) then Some (n - 87)
  else if (65 <=? n) && (n <=? 90) then Some (n - 55)
  else None.

Definition is_digit (R : Z) (c : ascii) : bool :=
  match digit_of_ascii c with
  | Some d => d <? R
  | None => false
  end.

(** The longest prefix of radix-[R] digits, accumulated most significant
    digit first. *)
Fixpoint parse_digits (R : Z) (acc : Z) (s : string) : Z :=
  match s with
  | EmptyString => acc
  | String c s' =>
      match digit_of_ascii c with
      | Some d => if d <? R then parse_digits R (R * acc + d) s' else acc
      | None => acc
      end
  end.

(** The white space and line terminators of the language among the
    characters up to U+00FF: U+0009 to U+000D, U+0020 and U+00A0. *)
Definition is_white_space (c : ascii) : bool :=
  let n := N_of_ascii c in
  ((9 <=? n) && (n <=? 13))%N || (n =? 32)%N || (n =? 160)%N.

Fixpoint trim_start (s : string) : string :=
  match s with
  | String c s' => if is_white_space c then trim_start s' else s
  | EmptyString => s
  end.

(** [parseInt(s)] without a radix argument, for a string of characters
    up to U+00FF, one for each byte (the value of a header is such a
    string); [None] stands for [NaN]. Leading white space is skipped, a
    sign is read, a [0x]/[0X] prefix selects radix 16, and the number is
    the longest digit prefix. *)
Definition parseInt (s : string) : option Z :=
  let s1 := trim_start s in
  let '(sign, s2) :=
    match s1 with
    | String "-" r => (-1, r)
    | String "+" r => (1, r)
    | _ => (1, s1)
    end in
  let '(R, s3) :=
    match s2 with
    | String "0" (String "x" r) => (16, r)
    | String "0" (String "X" r) => (16, r)
    | _ => (10, s2)
    end in
  match s3 with
  | String c _ => if is_digit R c then Some (sign * parse_digits R 0 s3) else None
  | EmptyString => None
  end.

Definition ascii_of_digit (d : Z) : ascii := ascii_of_N (Z.to_N (48 + d)).

(** Decimal digits of a non-negative integer, most significant first,
    prepended to [acc]. *)
Fixpoint digits_of (fuel : nat) (n : Z) (acc : string) : string :=
  match fuel with
  | O => acc
  | S fuel' =>
      let acc' := String (ascii_of_digit (n mod 10)) acc in
      if n <? 10 then acc' else digits_of fuel' (n / 10) acc'
  end.

(** [n.toString()] for an integer [n]. *)
Definition toString (n : Z) : string :=
  if n <? 0 then String "-" (digits_of (S (Z.to_nat (Z.log2 (- n)))) (- n) EmptyString)
  else digits_of (S (Z.to_nat (Z.log2 n))) n EmptyString.

(** Strings that are empty or start with a decimal digit. *)
Definition head_is_decimal (s : string) : Prop :=
  s = EmptyString \/
  exists d r, 0 <= d < 10 /\ s = String (ascii_of_digit d) r.

End JsString.

(* ===================================================================== *)
(** ** Service worker ([static/js/modern-ui.js], second document) *)
(* ===================================================================== *)

Module ServiceWorker.
Import JsString.

(** *** Requests, responses and the platform state *)

Record Request := mkRequest {
  url : string;
  method : string;
  destination : string
}.

Inductive JsonValue :=
| JString (s : string)
| JBool (b : bool)
| JNumber (n : Z).

(** A response body: plain text, the text produced by [JSON.stringify]
    on an object literal (kept as its list of fields), or the HTML
    literal of [createOfflinePage]. *)
Inductive Body :=
| Text (s : string)
| Json (fields : list (string * JsonValue))
| OfflineHtml.

(** A response; the header names are kept in the spelling of the
    source, which reads and writes each of them in one spelling. *)
Record Response := mkResponse {
  status : Z;
  statusText : string;
  headers : gmap string string;
  body : Body
}.

(** [response.ok] *)
Definition ok (r : Response) : bool := (200 <=? status r) && (status r <=? 299).

(** [response.headers.set(name, value)] *)
Definition headers_set (name value : string) (r : Response) : Response :=
  {| status := status r; statusText := statusText r;
     headers := <[name := value]> (headers r); body := body r |}.

Inductive JsError :=
| NetworkError (u : string)    (* [fetch] rejected *)
| TypeError.                   (* [set] on headers that are immutable *)

(** The guard of a [Headers] object. *)
Inductive Guard :=
| immutable     (* a response that [fetch] or a cache gave *)
| writable.     (* a response made with [new Response] *)

(** A response object: what it holds, and the guard of its headers. *)
Record ResponseObject := mkObject {
  guard : Guard;
  content : Response
}.

(** [response.clone()]: the clone has the guard of the original. *)
Definition clone (response : ResponseObject) : ResponseObject :=
  {| guard := guard response; content := content response |}.

(** What the network does with a request: after [latency] milliseconds
    the promise of [fetch] resolves with a response or rejects. *)
Record NetReply := mkNetReply {
  latency : Z;
  outcome : option Response
}.

Inductive Event :=
| NetFetch (u : string)
| CacheMatch (cache u : string)
| CachePut (cache u : string).

Record World := mkWorld {
  caches : gmap string (gmap string Response);
  clock : Z;
  network : Request -> NetReply;
  trace : list Event
}.

Inductive Result (A : Type) :=
| Ok (a : A)
| Throw (e : JsError).
Arguments Ok {A} a.
Arguments Throw {A} e.

(** Computations of the service worker: they read and write the world
    and either return or throw. *)
Definition M (A : Type) : Type := World -> Result A * World.

Definition ret {A} (a : A) : M A := fun w => (Ok a, w).

Definition bind {A B} (m : M A) (k : A -> M B) : M B :=
  fun w =>
    match m w with
    | (Ok a, w') => k a w'
    | (Throw e, w') => (Throw e, w')
    end.

Definition throw {A} (e : JsError) : M A := fun w => (Throw e, w).

(** [try { m } catch (error) { h error }] *)
Definition try_catch {A} (m : M A) (h : JsError -> M A) : M A :=
  fun w =>
    match m w with
    | (Ok a, w') => (Ok a, w')
    | (Throw e, w') => h e w'
    end.

#[global] Instance M_ret : MRet M := @ret.
#[global] Instance M_bind : MBind M := fun A B k m => bind m k.

Definition set_trace (t : list Event) (w : World) : World :=
  {| caches := caches w; clock := clock w; network := network w; trace := t |}.

Definition set_clock (t : Z) (w : World) : World :=
  {| caches := caches w; clock := t; network := network w; trace := trace w |}.

Definition set_caches (c : gmap string (gmap string Response)) (w : World) : World :=
  {| caches := c; clock := clock w; network := network w; trace := trace w |}.

Definition emit (e : Event) : M unit :=
  fun w => (Ok tt, set_trace (trace w ++ [e]) w).

(** [Date.now()] *)
Definition Date_now : M Z := fun w => (Ok (clock w), w).

(** The network answers [request]; time advances by the latency. *)
Definition net_call (request : Request) : M Response :=
  fun w =>
    let reply := network w request in
    let w' := set_clock (clock w + latency reply) w in
    match outcome reply with
    | Some r => (Ok r, w')
    | None => (Throw (NetworkError (url request)), w')
    end.

(** [await fetch(request)]: the headers of the response that the
    promise resolves with are immutable. *)
Definition fetch (request : Request) : M ResponseObject :=
  emit (NetFetch (url request)) ;;
  r ← net_call request;
  mret {| guard := immutable; content := r |}.

(** [response.headers.set(name, value)] *)
Definition Headers_set (name value : string) (response : ResponseObject)
  : M ResponseObject :=
  match guard response with
  | immutable => throw TypeError
  | writable =>
      mret {| guard := writable; content := headers_set name value (content response) |}
  end.

Definition cache_of (w : World) (name : string) : gmap string Response :=
  default ∅ (caches w !! name).

Definition cache_lookup (name u : string) : M (option Response) :=
  fun w => (Ok (cache_of w name !! u), w).

Definition cache_store (name u : string) (r : Response) : M unit :=
  fun w => (Ok tt, set_caches (<[name := <[u := r]> (cache_of w name)]> (caches w)) w).

(** [(await caches.open(name)).match(request)]: the headers of the
    response that a cache gives are immutable. *)
Definition cache_match (name : string) (request : Request) : M (option ResponseObject) :=
  emit (CacheMatch name (url request)) ;;
  cached ← cache_lookup name (url request);
  mret (mkObject immutable <$> cached).

(** [(await caches.open(name)).put(request, response)] *)
Definition cache_put (name : string) (request : Request) (response : ResponseObject)
  : M unit :=
  emit (CachePut name (url request)) ;; cache_store name (url request) (content response).

(** *** Constants *)

Definition STATIC_CACHE : string := "rhelper-static-v1.0.0".
Definition DYNAMIC_CACHE : string := "rhelper-dynamic-v1.0.0".
Definition IMAGE_CACHE : string := "rhelper-images-v1.0.0".

Definition STATIC_ASSETS : list string :=
  [ "/";
    "/static/css/advanced-code-editor.css";
    "/static/js/advanced-code-editor.js";
    "/static/js/interaction-enhancer.js";
    "/static/js/performance-optimizer.js";
    "/static/css/bootstrap.min.css";
    "/static/js/bootstrap.bundle.min.js";
    "https://cdnjs.cloudflare.com/ajax/libs/font-awesome/6.0.0/css/all.min.css";
    "https://cdn.jsdelivr.net/npm/monaco-editor@latest/min/vs/loader.js" ].

(** The regular expressions of the source are anchored literals. *)
Inductive Pattern :=
| Starts (p : string)   (* /^p/ *)
| Ends (p : string).    (* /p$/ *)

Definition test (pat : Pattern) (s : string) : bool :=
  match pat with
  | Starts p => startsWith p s
  | Ends p => endsWith p s
  end.

Definition DYNAMIC_CACHE_PATTERNS : list Pattern :=
  [ Starts "/api/"; Starts "/static/"; Ends ".json"; Ends ".js"; Ends ".css" ].

Definition IMAGE_CACHE_PATTERNS : list Pattern :=
  [ Ends ".jpg"; Ends ".jpeg"; Ends ".png"; Ends ".gif"; Ends ".webp"; Ends ".svg" ].

Inductive CacheClass := static | dynamic | images | api.

Definition CACHE_EXPIRY (c : CacheClass) : Z :=
  match c with
  | static => 7 * 24 * 60 * 60 * 1000
  | dynamic => 3 * 24 * 60 * 60 * 1000
  | images => 30 * 24 * 60 * 60 * 1000
  | api => 5 * 60 * 1000
  end.

(** *** Request classification *)

Definition isStaticAsset (request : Request) : bool :=
  existsb (fun asset => includes asset (url request)) STATIC_ASSETS
  || includes "/static/" (url request)
  || includes ".css" (url request)
  || includes ".js" (url request).

Definition isImageRequest (request : Request) : bool :=
  existsb (fun pattern => test pattern (url request)) IMAGE_CACHE_PATTERNS
  || String.eqb (destination request) "image".

Definition isDynamicRequest (request : Request) : bool :=
  existsb (fun pattern => test pattern (url request)) DYNAMIC_CACHE_PATTERNS.

Definition isApiRequest (request : Request) : bool :=
  includes "/api/" (url request) || includes ".json" (url request).

(** *** Expiry *)

Definition TIMESTAMP : string := "X-Cache-Timestamp".

(** The body of [isCacheExpired] at the instant [now]:
    [headers.get] gives [null] for a missing header, [!timestamp] is
    true for [null] and for the empty string, and a comparison with
    [NaN] is false. *)
Definition expired_at (now : Z) (response : Response) (maxAge : Z) : bool :=
  match headers response !! TIMESTAMP with
  | None => true
  | Some timestamp =>
      if negb (truthy timestamp) then true
      else
        match parseInt timestamp with
        | Some t => now - t >? maxAge
        | None => false
        end
  end.

Definition isCacheExpired (response : ResponseObject) (maxAge : Z) : M bool :=
  now ← Date_now; mret (expired_at now (content response) maxAge).

Definition addTimestamp (response : ResponseObject) : M ResponseObject :=
  now ← Date_now; Headers_set TIMESTAMP (toString now) response.

(** *** Synthesised responses

    What the responses made with [new Response] hold; the service worker
    returns them and never writes their headers. *)

Definition createOfflinePage : Response :=
  {| status := 200; statusText := "OK";
     headers := {[ "Content-Type" := "text/html; charset=utf-8";
                   "X-Served-By" := "ServiceWorker" ]};
     body := OfflineHtml |}.

Definition dq : string := String "034"%char EmptyString.

(** The template literal of [createPlaceholderImage]. *)
Definition placeholder_svg : string :=
    ("
        <svg width=" ++ dq ++
      "400" ++ dq ++
      " height=" ++ dq ++
      "300" ++ dq ++
      " xmlns=" ++ dq ++
      "http://www.w3.org/2000/svg" ++ dq ++
      ">
            <defs>
                <linearGradient id=" ++ dq ++
      "grad1" ++ dq ++
      " x1=" ++ dq ++
      "0%" ++ dq ++
      " y1=" ++ dq ++
      "0%" ++ dq ++
      " x2=" ++ dq ++
      "100%" ++ dq ++
      " y2=" ++ dq ++
      "100%" ++ dq ++
      ">
                    <stop offset=" ++ dq ++
      "0%" ++ dq ++
      " style=" ++ dq ++
      "stop-color:#f0f0f0;stop-opacity:1" ++ dq ++
      " />
                    <stop offset=" ++ dq ++
      "100%" ++ dq ++
      " style=" ++ dq ++
      "stop-color:#e0e0e0;stop-opacity:1" ++ dq ++
      " />
                </linearGradient>
            </defs>
            <rect width=" ++ dq ++
      "400" ++ dq ++
      " height=" ++ dq ++
      "300" ++ dq ++
      " fill=" ++ dq ++
      "url(#grad1)" ++ dq ++
      " />
            <text x=" ++ dq ++
      "200" ++ dq ++
      " y=" ++ dq ++
      "150" ++ dq ++
      " font-family=" ++ dq ++
      "Arial, sans-serif" ++ dq ++
      " font-size=" ++ dq ++
      "16" ++ dq ++
      " 
                  fill=" ++ dq ++
      "#999" ++ dq ++
      " text-anchor=" ++ dq ++
      "middle" ++ dq ++
      " dominant-baseline=" ++ dq ++
      "middle" ++ dq ++
      ">
                图片暂时无法加载
            </text>
        </svg>
    ")%string.

Definition createPlaceholderImage : Response :=
  {| status := 200; statusText := "OK";
     headers := {[ "Content-Type" := "image/svg+xml";
                   "X-Served-By" := "ServiceWorker" ]};
     body := Text placeholder_svg |}.

(** The offline answer that ends [handleApiRequest]. *)
Definition offlineApiResponse (now : Z) : Response :=
  {| status := 503; statusText := "Service Unavailable";
     headers := {[ "Content-Type" := "application/json";
                   "X-Served-From-Cache" := "false" ]};
     body := Json [ ("error", JString "网络连接失败");
                    ("offline", JBool true);
                    ("timestamp", JNumber now) ] |}.

(** *** Cache strategies *)

(** [cached && !isCacheExpired(cached, maxAge)] *)
Definition usable (cached : option ResponseObject) (maxAge : Z) : M bool :=
  match cached with
  | Some c => expired ← isCacheExpired c maxAge; mret (negb expired)
  | None => mret false
  end.

(** [if (response.ok) { clone; addTimestamp(clone); cache.put(request, clone) }] *)
Definition store_if_ok (name : string) (request : Request) (response : ResponseObject)
  : M unit :=
  if ok (content response) then
    responseClone ← addTimestamp (clone response);
    cache_put name request responseClone
  else mret tt.

(** The handlers resolve with a response object; the result kept here
    is what that object holds. *)
Definition handleStaticAsset (request : Request) : M Response :=
  try_catch
    (cached ← cache_match STATIC_CACHE request;
     fresh ← usable cached (CACHE_EXPIRY static);
     match cached, fresh with
     | Some c, true => mret (content c)
     | _, _ =>
         response ← fetch request;
         store_if_ok STATIC_CACHE request response ;;
         mret (content response)
     end)
    (fun error =>
       cached ← cache_match STATIC_CACHE request;
       match cached with
       | Some c => mret (content c)
       | None =>
           if String.eqb (destination request) "document"
           then mret createOfflinePage
           else throw error
       end).

Definition handleImageRequest (request : Request) : M Response :=
  try_catch
    (cached ← cache_match IMAGE_CACHE request;
     fresh ← usable cached (CACHE_EXPIRY images);
     match cached, fresh with
     | Some c, true => mret (content c)
     | _, _ =>
         response ← fetch request;
         store_if_ok IMAGE_CACHE request response ;;
         mret (content response)
     end)
    (fun error =>
       cached ← cache_match IMAGE_CACHE request;
       match cached with
       | Some c => mret (content c)
       | None => mret createPlaceholderImage
       end).

Definition handleDynamicRequest (request : Request) : M Response :=
  try_catch
    (response ← fetch request;
     store_if_ok DYNAMIC_CACHE request response ;;
     mret (content response))
    (fun error =>
       cached ← cache_match DYNAMIC_CACHE request;
       fresh ← usable cached (CACHE_EXPIRY dynamic);
       match cached, fresh with
       | Some c, true => mret (content c)
       | _, _ => throw error
       end).

Definition handleApiRequest (request : Request) : M Response :=
  try_catch
    (response ← fetch request;
     store_if_ok DYNAMIC_CACHE request response ;;
     mret (content response))
    (fun error =>
       cached ← cache_match DYNAMIC_CACHE request;
       fresh ← usable cached (CACHE_EXPIRY api);
       match cached, fresh with
       | Some c, true =>
           offlineResponse ← Headers_set "X-Served-From-Cache" "true" (clone c);
           mret (content offlineResponse)
       | _, _ => now ← Date_now; mret (offlineApiResponse now)
       end).

Definition handleDefaultRequest (request : Request) : M Response :=
  try_catch
    (response ← fetch request; mret (content response))
    (fun error =>
       if String.eqb (destination request) "document"
       then mret createOfflinePage
       else throw error).

(** *** The [fetch] event listener *)

Inductive Strategy := StaticAsset | Image | Dynamic | Api | Default.

Definition handler (s : Strategy) : Request -> M Response :=
  match s with
  | StaticAsset => handleStaticAsset
  | Image => handleImageRequest
  | Dynamic => handleDynamicRequest
  | Api => handleApiRequest
  | Default => handleDefaultRequest
  end.

(** The branch structure of the listener: [None] when it returns
    without calling [event.respondWith]. *)
Definition route (request : Request) : option Strategy :=
  if negb (startsWith "http" (url request)) then None
  else if negb (String.eqb (method request) "GET") then None
  else if isStaticAsset request then Some StaticAsset
  else if isImageRequest request then Some Image
  else if isDynamicRequest request then Some Dynamic
  else if isApiRequest request then Some Api
  else Some Default.

Inductive FetchOutcome :=
| PassThrough                          (* respondWith was not called *)
| RespondWith (r : Result Response).   (* the promise given to respondWith *)

Definition onFetch (request : Request) (w : World) : FetchOutcome * World :=
  match route request with
  | None => (PassThrough, w)
  | Some s => let '(r, w') := handler s request w in (RespondWith r, w')
  end.

(** *** Vocabulary of the properties *)

(** The cache and the age limit each strategy works with. *)
Definition cache_name (s : Strategy) : option string :=
  match s with
  | StaticAsset => Some STATIC_CACHE
  | Image => Some IMAGE_CACHE
  | Dynamic | Api => Some DYNAMIC_CACHE
  | Default => None
  end.

Definition max_age (s : Strategy) : option Z :=
  match s with
  | StaticAsset => Some (CACHE_EXPIRY static)
  | Image => Some (CACHE_EXPIRY images)
  | Dynamic => Some (CACHE_EXPIRY dynamic)
  | Api => Some (CACHE_EXPIRY api)
  | Default => None
  end.

(** The entry of [request] in the cache [name], when it exists and is
    not expired at the current instant. *)
Definition fresh_entry (w : World) (name : string) (maxAge : Z) (request : Request)
  : option Response :=
  match cache_of w name !! url request with
  | Some c => if expired_at (clock w) c maxAge then None else Some c
  | None => None
  end.

(** [r] with the digits of the instant [t] in its timestamp header, the
    way [addTimestamp] means to write them. *)
Definition stamped (t : Z) (r : Response) : Response :=
  headers_set TIMESTAMP (toString t) r.

(** The world after [request] was looked up in [name]. *)
Definition looked_up (name : string) (request : Request) (w : World) : World :=
  set_trace (trace w ++ [CacheMatch name (url request)]) w.

(** The world once the network has answered [request]. *)
Definition fetched (request : Request) (w : World) : World :=
  set_clock (clock w + latency (network w request))
    (set_trace (trace w ++ [NetFetch (url request)]) w).

(** What the [catch] block of [handleStaticAsset] settles with for the
    error that it caught: the cached entry when there is one, expired or
    not, else the offline page for a document, else the error. *)
Definition static_fallback (request : Request) (w : World) (error : JsError)
  : Result Response :=
  match cache_of w STATIC_CACHE !! url request with
  | Some c => Ok c
  | None =>
      if String.eqb (destination request) "document"
      then Ok createOfflinePage
      else Throw error
  end.

(** The expiry condition in the words of the specification: no timestamp
    header, or a timestamp older than the limit. *)
Definition stated_expired (now : Z) (response : Response) (maxAge : Z) : Prop :=
  headers response !! TIMESTAMP = None \/
  exists timestamp t,
    headers response !! TIMESTAMP = Some timestamp /\
    parseInt timestamp = Some t /\ now - t > maxAge.

(** A response whose timestamp header is present and empty. *)
Definition empty_stamp : Response :=
  {| status := 200; statusText := "OK";
     headers := {[ TIMESTAMP := EmptyString ]}; body := Text "cached" |}.



(** *** Sample requests and worlds *)

Definition sample_ok : Response :=
  {| status := 200; statusText := "OK"; headers := ∅; body := Text "payload" |}.

Definition online : Request -> NetReply :=
  fun _ => {| latency := 40; outcome := Some sample_ok |}.

Definition offline : Request -> NetReply :=
  fun _ => {| latency := 40; outcome := None |}.

Definition empty_world (net : Request -> NetReply) : World :=
  {| caches := ∅; clock := 1700000000000; network := net; trace := [] |}.

Definition api_request : Request :=
  {| url := "https://example.com/api/data"; method := "GET"; destination := EmptyString |}.

Definition image_request : Request :=
  {| url := "https://example.com/logo.png"; method := "GET"; destination := "image" |}.

Definition script_request : Request :=
  {| url := "https://example.com/static/js/app.js"; method := "GET";
     destination := "script" |}.


Definition post_request : Request :=
  {| url := "https://example.com/api/data"; method := "POST"; destination := EmptyString |}.

(** The number of network attempts in a list of events. *)
Definition is_net_fetch (e : Event) : bool :=
  match e with NetFetch _ => true | _ => false end.

Definition net_attempts (evs : list Event) : nat :=
  length (List.filter is_net_fetch evs).

(** [handleApiRequest] answers with the offline response 503 after one
    network attempt and one cache lookup, and writes no cache. *)
Definition answered_unavailable (request : Request) (w : World) : Prop :=
  exists resp w',
    handleApiRequest request w = (Ok resp, w') /\
    status resp = 503 /\ statusText resp = "Service Unavailable" /\
    headers resp !! "Content-Type" = Some "application/json" /\
    body resp = Json [ ("error", JString "网络连接失败");
                       ("offline", JBool true);
                       ("timestamp", JNumber (clock w')) ] /\
    trace w' = (trace w ++ [NetFetch (url request);
                            CacheMatch DYNAMIC_CACHE (url request)])%list /\
    clock w' = clock w + latency (network w request) /\
    caches w' = caches w.

End ServiceWorker.

(* ===================================================================== *)
(** ** Service worker: cache maintenance *)
(* ===================================================================== *)

Module ServiceWorkerMaintenance.
Import JsString ServiceWorker.

Definition currentCaches : list string := [STATIC_CACHE; DYNAMIC_CACHE; IMAGE_CACHE].

(** [currentCaches.includes(cacheName)] *)
Definition is_current (cacheName : string) : bool :=
  existsb (String.eqb cacheName) currentCaches.

(** [cleanOldCaches]: every cache of [caches.keys()] whose name is not
    one of the three current names is deleted. *)
Definition cleanOldCaches (w : World) : World :=
  set_caches (filter (fun entry => is_current entry.1 = true) (caches w)) w.

End ServiceWorkerMaintenance.

(* ===================================================================== *)
(** ** Theme manager ([static/js/theme-manager.js]) *)
(* ===================================================================== *)

Module ThemeManager.

Record Theme := mkTheme { name : string; icon : string }.

(** [this.themes], in the order of the object literal. *)
Definition themes : list (string * Theme) :=
  [ ("classic", {| name := "经典粉色"; icon := "🌸" |});
    ("sakura", {| name := "浅樱花粉"; icon := "🌺" |});
    ("rose", {| name := "玫瑰红"; icon := "🌹" |});
    ("coral", {| name := "珊瑚粉"; icon := "🐚" |});
    ("lavender_original", {| name := "薰衣草原版"; icon := "💜" |});
    ("warm", {| name := "暖粉调"; icon := "🔥" |});
    ("dark", {| name := "深色专业"; icon := "🌙" |});
    ("forest", {| name := "森林绿"; icon := "🌲" |});
    ("ocean", {| name := "海洋蓝"; icon := "🌊" |});
    ("sunset", {| name := "日落橙"; icon := "🌅" |});
    ("lavender", {| name := "薰衣草紫"; icon := "💜" |});
    ("rose-gold", {| name := "玫瑰金"; icon := "✨" |}) ].

Definition theme_keys : list string := map fst themes.

Fixpoint own (key : string) (table : list (string * Theme)) : option Theme :=
  match table with
  | [] => None
  | (k, t) :: rest => if String.eqb k key then Some t else own key rest
  end.

(** The properties that an object literal inherits from
    [Object.prototype]; each of them is a function or an object. *)
Definition Object_prototype : list string :=
  [ "constructor"; "__defineGetter__"; "__defineSetter__"; "hasOwnProperty";
    "__lookupGetter__"; "__lookupSetter__"; "isPrototypeOf";
    "propertyIsEnumerable"; "toString"; "valueOf"; "__proto__"; "toLocaleString" ].

Inductive Value :=
| VTheme (t : Theme)
| VInherited (prop : string)
| VUndefined.

(** [this.themes[key]]: an own property, else the prototype chain. *)
Definition themes_get (key : string) : Value :=
  match own key themes with
  | Some t => VTheme t
  | None => if existsb (String.eqb key) Object_prototype then VInherited key else VUndefined
  end.

Definition truthy (v : Value) : bool :=
  match v with VUndefined => false | _ => true end.

(** [value.name], as the template literal of the notification prints it. *)
Definition name_of (v : Value) : string :=
  match v with
  | VTheme t => name t
  | VInherited "constructor" => "Object"
  | VInherited "__proto__" => "undefined"
  | VInherited prop => prop
  | VUndefined => "undefined"
  end.

Record State := mkState {
  currentTheme : string;
  localStorage : gmap string string;
  bodyClassList : list string;             (* document.body.classList *)
  themeOptions : list (string * bool);     (* .theme-option: data-theme, active *)
  notification : option string;            (* theme name in .theme-notification *)
  dispatched : list string                 (* detail.theme of each themeChanged event *)
}.

Definition contains (classes : list string) (c : string) : bool :=
  existsb (String.eqb c) classes.

(** [classList.remove(...tokens)] *)
Definition classList_remove (tokens classes : list string) : list string :=
  List.filter (fun c => negb (contains tokens c)) classes.

(** [classList.add(token)] *)
Definition classList_add (token : string) (classes : list string) : list string :=
  if contains classes token then classes else classes ++ [token].

Definition theme_class (t : string) : string := "theme-" ++ t.

Definition applyTheme (themeName : string) (st : State) : State :=
  let allThemeClasses := map theme_class theme_keys in
  let newThemeClass := theme_class themeName in
  {| currentTheme := currentTheme st;
     localStorage := localStorage st;
     bodyClassList :=
       classList_add newThemeClass (classList_remove allThemeClasses (bodyClassList st));
     themeOptions := themeOptions st;
     notification := notification st;
     dispatched := dispatched st ++ [themeName] |}.

Definition updateActiveButton (themeName : string) (st : State) : State :=
  {| currentTheme := currentTheme st;
     localStorage := localStorage st;
     bodyClassList := bodyClassList st;
     themeOptions := map (fun o => (fst o, String.eqb (fst o) themeName)) (themeOptions st);
     notification := notification st;
     dispatched := dispatched st |}.

Definition showThemeNotification (themeName : string) (st : State) : State :=
  {| currentTheme := currentTheme st;
     localStorage := localStorage st;
     bodyClassList := bodyClassList st;
     themeOptions := themeOptions st;
     notification := Some themeName;
     dispatched := dispatched st |}.

Definition set_currentTheme (t : string) (st : State) : State :=
  {| currentTheme := t;
     localStorage := localStorage st;
     bodyClassList := bodyClassList st;
     themeOptions := themeOptions st;
     notification := notification st;
     dispatched := dispatched st |}.

(** [localStorage.setItem(key, value)] *)
Definition setItem (key value : string) (st : State) : State :=
  {| currentTheme := currentTheme st;
     localStorage := <[key := value]> (localStorage st);
     bodyClassList := bodyClassList st;
     themeOptions := themeOptions st;
     notification := notification st;
     dispatched := dispatched st |}.

Definition setTheme (themeName : string) (st : State) : State :=
  if negb (truthy (themes_get themeName)) then st
  else
    let st1 := set_currentTheme themeName st in
    let st2 := applyTheme themeName st1 in
    let st3 := updateActiveButton themeName st2 in
    let st4 := setItem "preferred-theme" themeName st3 in
    showThemeNotification (name_of (themes_get themeName)) st4.

Definition loadSavedTheme (st : State) : State :=
  match localStorage st !! "preferred-theme" with
  | Some saved =>
      if JsString.truthy saved && truthy (themes_get saved)
      then applyTheme saved (set_currentTheme saved st)
      else st
  | None => st
  end.

(** The option buttons that [createThemeSelector] renders. *)
Definition createThemeSelector (st : State) : State :=
  {| currentTheme := currentTheme st;
     localStorage := localStorage st;
     bodyClassList := bodyClassList st;
     themeOptions := map (fun k => (k, String.eqb k (currentTheme st))) theme_keys;
     notification := notification st;
     dispatched := dispatched st |}.

(** [new ThemeManager()] on a freshly loaded page whose body has the
    classes [classes] and whose storage is [storage]. *)
Definition init (storage : gmap string string) (classes : list string) : State :=
  createThemeSelector
    (loadSavedTheme
       {| currentTheme := "classic"; localStorage := storage; bodyClassList := classes;
          themeOptions := []; notification := None; dispatched := [] |}).

(** The theme classes that the body carries. *)
Definition applied_themes (st : State) : list string :=
  List.filter (fun k => contains (bodyClassList st) (theme_class k)) theme_keys.

End ThemeManager.

(* ===================================================================== *)
(** ** Icon manager ([IconManager] v2.0) *)
(* ===================================================================== *)

Module IconManager.

Record Element := mkElement {
  tagName : string;
  classList : list string;
  textContent : string;
  style : gmap string string
}.

Record Document := mkDocument {
  bodyClassList : list string;
  elements : list Element;          (* the elements, in document order *)
  notifications : nat               (* notifications shown so far *)
}.

Record Manager := mkManager {
  iconMap : list (string * string); (* Object.entries(this.iconMap) *)
  isEmojiModeActive : bool
}.

Definition initialIconMap : list (string * string) :=
  [ ("fa-lightbulb", "💡");
    ("fa-question-circle", "❓");
    ("fa-highlighter", "📍");
    ("fa-highlight", "📍");
    ("fa-file-code", "📄");
    ("fa-code", "💻");
    ("fa-brain", "🧠");
    ("fa-print", "🖨️");
    ("fa-copy", "📋");
    ("fa-clock", "🕐");
    ("fa-home", "🏠");
    ("fa-history", "📋");
    ("fa-chart-line", "📈");
    ("fa-tachometer-alt", "📊");
    ("fa-vial", "🧪");
    ("fa-heart", "❤️");
    ("fa-check-circle", "✅");
    ("fa-magic", "✨");
    ("fa-comments", "💬");
    ("fa-clipboard-list", "📋");
    ("fa-wifi", "📶");
    ("fa-palette", "🎨");
    ("fa-icons", "🔧");
    ("fa-swatchbook", "🎨");
    ("fa-info-circle", "ℹ️") ].

Definition contains (classes : list string) (c : string) : bool :=
  existsb (String.eqb c) classes.

Definition classList_add (token : string) (classes : list string) : list string :=
  if contains classes token then classes else classes ++ [token].

(** The selector [i.fas, i.fa, i.far, i.fab]. *)
Definition is_icon (e : Element) : bool :=
  String.eqb (tagName e) "i" &&
  (contains (classList e) "fas" || contains (classList e) "fa" ||
   contains (classList e) "far" || contains (classList e) "fab").

Definition dq : string := String "034"%char EmptyString.

Definition emoji_style (s : gmap string string) : gmap string string :=
  <["position" := "relative"]>
  (<["textAlign" := "center"]>
  (<["width" := "1em"]>
  (<["display" := "inline-block"]>
  (<["fontWeight" := "normal"]>
  (<["fontStyle" := "normal"]>
  (<["fontFamily" := (dq ++ "Apple Color Emoji" ++ dq ++ ", " ++ dq ++ "Segoe UI Emoji"
                      ++ dq ++ ", " ++ dq ++ "Segoe UI Symbol" ++ dq ++ ", sans-serif")%string]>
   s)))))).

(** The emoji of the first entry of the map whose key is a class of the
    element: the [for ... of] loop with its [break]. *)
Fixpoint first_match (entries : list (string * string)) (classes : list string)
  : option string :=
  match entries with
  | [] => None
  | (faClass, emoji) :: rest =>
      if contains classes faClass then Some emoji else first_match rest classes
  end.

Definition setupIconFallback (m : Manager) (icon : Element) : Element :=
  match first_match (iconMap m) (classList icon) with
  | Some emoji =>
      {| tagName := tagName icon; classList := classList icon;
         textContent := emoji; style := emoji_style (style icon) |}
  | None => icon
  end.

Definition updateAllIcons (m : Manager) (doc : Document) : Document :=
  {| bodyClassList := bodyClassList doc;
     elements := map (fun e => if is_icon e then setupIconFallback m e else e) (elements doc);
     notifications := notifications doc |}.

Definition showIconNotification (doc : Document) : Document :=
  {| bodyClassList := bodyClassList doc;
     elements := elements doc;
     notifications := S (notifications doc) |}.

Definition enableEmojiIcons (m : Manager) (doc : Document) : Manager * Document :=
  let m' := {| iconMap := iconMap m; isEmojiModeActive := true |} in
  let doc1 := {| bodyClassList := classList_add "icon-fallback-active" (bodyClassList doc);
                 elements := elements doc;
                 notifications := notifications doc |} in
  (m', showIconNotification (updateAllIcons m' doc1)).

Definition testElements : list Element :=
  map (fun cls => {| tagName := "i"; classList := cls; textContent := EmptyString;
                     style := ∅ |})
      [ ["fas"; "fa-home"]; ["fas"; "fa-lightbulb"]; ["fas"; "fa-code"] ].

(** The test on the computed [content] of a test element's [::before]. *)
Definition has_content (content : string) : bool :=
  JsString.truthy content &&
  negb (String.eqb content "none") &&
  negb (String.eqb content (dq ++ dq)) &&
  negb (String.eqb content EmptyString) &&
  negb (String.eqb content "normal").

Definition hasFontAwesome (contents : list string) : bool := existsb has_content contents.

Inductive Outcome :=
| Done (m : Manager) (doc : Document)
| TypeError (msg : string).

(** [checkFontAwesome]: the test elements are appended to the body, the
    computed contents [contents] of their [::before] are inspected, and
    the test elements are removed at the end. The class has no method
    [setupFallbacks], so the branch that calls it throws. *)
Definition checkFontAwesome (contents : list string) (m : Manager) (doc : Document)
  : Outcome :=
  let doc1 := {| bodyClassList := bodyClassList doc;
                 elements := elements doc ++ testElements;
                 notifications := notifications doc |} in
  if negb (hasFontAwesome contents) then
    let '(m', doc2) := enableEmojiIcons m doc1 in
    Done m' {| bodyClassList := bodyClassList doc2;
               elements := firstn (length (elements doc)) (elements doc2);
               notifications := notifications doc2 |}
  else TypeError "this.setupFallbacks is not a function".

(** What the fallback does to a document: the body is marked, the
    selected elements with a key of the map get the emoji of their first
    key, every other element is left as it was. *)
Definition emoji_fallback (contents : list string) (m : Manager) (doc : Document) : Prop :=
  exists m' doc',
    checkFontAwesome contents m doc = Done m' doc' /\
    isEmojiModeActive m' = true /\
    In "icon-fallback-active" (bodyClassList doc') /\
    length (elements doc') = length (elements doc) /\
    forall (i : nat) e, elements doc !! i = Some e ->
      (is_icon e = true ->
       forall pre key emoji post,
         iconMap m = (pre ++ (key, emoji) :: post)%list ->
         In key (classList e) ->
         (forall k v, In (k, v) pre -> ~ In k (classList e)) ->
         exists e', elements doc' !! i = Some e' /\
           textContent e' = emoji /\
           tagName e' = tagName e /\ classList e' = classList e) /\
      (is_icon e = true ->
       (forall k v, In (k, v) (iconMap m) -> ~ In k (classList e)) ->
       elements doc' !! i = Some e) /\
      (is_icon e = false -> elements doc' !! i = Some e).

(** *** A sample page *)

Definition sample_manager : Manager :=
  {| iconMap := initialIconMap; isEmojiModeActive := false |}.

Definition sample_document : Document :=
  {| bodyClassList := ["theme-classic"];
     elements :=
       [ {| tagName := "i"; classList := ["fas"; "fa-home"];
            textContent := EmptyString; style := ∅ |};
         {| tagName := "i"; classList := ["fas"; "fa-rocket"];
            textContent := EmptyString; style := ∅ |};
         {| tagName := "span"; classList := ["fa-home"];
            textContent := "Home"; style := ∅ |} ];
     notifications := 0 |}.

End IconManager.

(* ===================================================================== *)
(** ** Performance optimizer ([static/js/modules/performance-optimizer.js]) *)
(* ===================================================================== *)

Module PerformanceOptimizer.

(** *** Memory cache *)

Section MemoryCache.

(** The cached values and the text that [JSON.stringify] gives for them,
    one character per UTF-16 code unit. *)
Context {Data : Type}.
Variable JSON_stringify : Data -> string.

Record MemoryCache := mkMemoryCache {
  memoryCache : list (string * Data);   (* a Map, in insertion order *)
  memoryCacheSize : Z;
  maxMemoryCacheSize : Z
}.

Definition setupMemoryCache : MemoryCache :=
  {| memoryCache := []; memoryCacheSize := 0; maxMemoryCacheSize := 50 * 1024 * 1024 |}.

Definition calculateObjectSize (obj : Data) : Z :=
  Z.of_nat (String.length (JSON_stringify obj)) * 2.

(** [map.set(key, data)]: an existing key keeps its position. *)
Fixpoint map_set (key : string) (data : Data) (entries : list (string * Data))
  : list (string * Data) :=
  match entries with
  | [] => [(key, data)]
  | (k, d) :: rest =>
      if String.eqb k key then (k, data) :: rest else (k, d) :: map_set key data rest
  end.

(** [map.get(key)] *)
Fixpoint map_get (key : string) (entries : list (string * Data)) : option Data :=
  match entries with
  | [] => None
  | (k, d) :: rest => if String.eqb k key then Some d else map_get key rest
  end.

(** The [while] loop of [cacheInMemory]: the first key of the map is
    evicted as long as the recorded size leaves no room; the loop breaks
    when the map is empty or its first key is falsy. *)
Fixpoint free_space (size max : Z) (entries : list (string * Data)) (recorded : Z)
  : list (string * Data) * Z :=
  if recorded + size >? max then
    match entries with
    | [] => (entries, recorded)
    | (firstKey, firstData) :: rest =>
        if JsString.truthy firstKey
        then free_space size max rest (recorded - calculateObjectSize firstData)
        else (entries, recorded)
    end
  else (entries, recorded).

Definition cacheInMemory (key : string) (data : Data) (st : MemoryCache)
  : bool * MemoryCache :=
  let size := calculateObjectSize data in
  if size >? maxMemoryCacheSize st then (false, st)
  else
    let '(entries, recorded) :=
      free_space size (maxMemoryCacheSize st) (memoryCache st) (memoryCacheSize st) in
    (true, {| memoryCache := map_set key data entries;
              memoryCacheSize := recorded + size;
              maxMemoryCacheSize := maxMemoryCacheSize st |}).

Definition getFromMemoryCache (key : string) (st : MemoryCache) : option Data :=
  map_get key (memoryCache st).

(** The state after a sequence of calls of [cacheInMemory]. *)
Definition cacheAll (calls : list (string * Data)) (st : MemoryCache) : MemoryCache :=
  fold_left (fun s call => (cacheInMemory (fst call) (snd call) s).2) calls st.

(** The sum of the estimated sizes of the entries. *)
Definition total_size (entries : list (string * Data)) : Z :=
  fold_right (fun e acc => calculateObjectSize (snd e) + acc) 0 entries.

(** The sum of the estimated sizes of the entries that the map holds. *)
Definition held_size (st : MemoryCache) : Z := total_size (memoryCache st).

(** A cache whose recorded size is the size it holds, within the budget,
    and whose keys are all truthy. *)
Definition well_accounted (st : MemoryCache) : Prop :=
  memoryCacheSize st = held_size st /\
  memoryCacheSize st <= maxMemoryCacheSize st /\
  Forall (fun e => JsString.truthy (fst e) = true) (memoryCache st).

End MemoryCache.

(** A JavaScript string of [n] letters [a], and its JSON text. *)
Definition letters (n : N) : string := N.iter n (String "a") EmptyString.

Definition dq : string := String "034"%char EmptyString.

Definition stringify_letters (s : string) : string := (dq ++ s ++ dq)%string.

(** *** Resource queue *)

Record Item := mkItem { url : string; priority : Z }.

(** The place of [x] in a queue that is sorted by the comparator
    [(a, b) => b.priority - a.priority], when [x] came before all of it. *)
Fixpoint insert (x : Item) (queue : list Item) : list Item :=
  match queue with
  | [] => [x]
  | y :: rest => if priority y <=? priority x then x :: queue else y :: insert x rest
  end.

(** [queue.sort((a, b) => b.priority - a.priority)]; the sort of an array
    is stable. *)
Fixpoint sort (queue : list Item) : list Item :=
  match queue with
  | [] => []
  | x :: rest => insert x (sort rest)
  end.

Definition queueResourceLoad (url : string) (priority : Z) (resourceQueue : list Item)
  : list Item :=
  sort (resourceQueue ++ [ {| url := url; priority := priority |} ]).

Definition maxConcurrent (isOnline : bool) : nat := if isOnline then 6 else 2.

(** The [while] loop of [processResourceQueue]: items are shifted from
    the queue and their loads started while fewer than [limit] loads were
    started. The result is the URLs whose load was started, and the rest
    of the queue. *)
Fixpoint start_loads (limit : nat) (resourceQueue : list Item) (processing : list string)
  : list string * list Item :=
  match resourceQueue with
  | [] => (processing, [])
  | item :: rest =>
      if (length processing <? limit)%nat
      then start_loads limit rest (processing ++ [url item])
      else (processing, resourceQueue)
  end.

(** One call of [processResourceQueue]: the loads started, the queue that
    is left, and whether another call is scheduled after the loads have
    settled. *)
Definition processResourceQueue (isOnline : bool) (resourceQueue : list Item)
  : list string * list Item * bool :=
  let '(processing, rest) := start_loads (maxConcurrent isOnline) resourceQueue [] in
  (processing, rest, (0 <? length processing)%nat && (0 <? length rest)%nat).

(** The queue is sorted by descending priority. *)
Definition descending (queue : list Item) : Prop :=
  Sorted (fun a b => priority b <= priority a) queue.

(** *** Sample queues *)

Definition low : Item := {| url := "/static/js/analytics.js"; priority := 0 |}.

Definition seven : list Item :=
  map (fun u => {| url := u; priority := 0 |}) ["/a"; "/b"; "/c"; "/d"; "/e"; "/f"; "/g"].

End PerformanceOptimizer.

(* ===================================================================== *)
(** ** Icon manager: switching the emoji mode *)
(* ===================================================================== *)

Module IconManagerToggle.
Import IconManager.

Definition byte (c : ascii) : Z := Z.of_N (N_of_ascii c).

(** The low six bits of a continuation byte. *)
Definition low6 (c : ascii) : Z := byte c mod 64.

(** The code points of a string, which is kept as its UTF-8 bytes. A
    sequence that is cut short ends the list. *)
Fixpoint code_points (s : string) : list Z :=
  match s with
  | EmptyString => []
  | String b0 s1 =>
      if byte b0 <? 128 then byte b0 :: code_points s1
      else
        match s1 with
        | EmptyString => []
        | String b1 s2 =>
            if byte b0 <? 224
            then ((byte b0 mod 32) * 64 + low6 b1) :: code_points s2
            else
              match s2 with
              | EmptyString => []
              | String b2 s3 =>
                  if byte b0 <? 240
                  then ((byte b0 mod 16) * 4096 + low6 b1 * 64 + low6 b2) :: code_points s3
                  else
                    match s3 with
                    | EmptyString => []
                    | String b3 s4 =>
                        ((byte b0 mod 8) * 262144 + low6 b1 * 4096 + low6 b2 * 64 + low6 b3)
                          :: code_points s4
                    end
              end
        end
  end.

(** The character classes of the regular expression of [toggleIconMode]:
    U+1F600-1F64F, U+1F300-1F5FF, U+1F680-1F6FF, U+2600-26FF, U+2700-27BF. *)
Definition in_emoji_ranges (cp : Z) : bool :=
  ((128512 <=? cp) && (cp <=? 128591)) ||
  ((127744 <=? cp) && (cp <=? 128511)) ||
  ((128640 <=? cp) && (cp <=? 128767)) ||
  ((9728 <=? cp) && (cp <=? 9983)) ||
  ((9984 <=? cp) && (cp <=? 10175)).

(** [text.match(/.../u)]: some code point of the text is in the ranges. *)
Definition matches_emoji (text : string) : bool :=
  existsb in_emoji_ranges (code_points text).

(** [classList.remove(token)] *)
Definition classList_remove (token : string) (classes : list string) : list string :=
  List.filter (fun c => negb (String.eqb c token)) classes.

(** The six style properties that are set back to the empty string. *)
Definition clear_style (s : gmap string string) : gmap string string :=
  delete "textAlign"
    (delete "width"
       (delete "display"
          (delete "fontWeight"
             (delete "fontStyle"
                (delete "fontFamily" s))))).

Definition clearEmoji (icon : Element) : Element :=
  if matches_emoji (textContent icon)
  then {| tagName := tagName icon; classList := classList icon;
          textContent := EmptyString; style := clear_style (style icon) |}
  else icon.

Definition toggleIconMode (m : Manager) (doc : Document) : Manager * Document :=
  if isEmojiModeActive m then
    ({| iconMap := iconMap m; isEmojiModeActive := false |},
     {| bodyClassList := classList_remove "icon-fallback-active" (bodyClassList doc);
        elements := map (fun e => if is_icon e then clearEmoji e else e) (elements doc);
        notifications := notifications doc |})
  else enableEmojiIcons m doc.


(** The emoji of the initial map that lie outside the ranges. *)
Definition unmatched_emoji : list string := ["🧠"; "🧪"; "ℹ️"].

End IconManagerToggle.

(* ===================================================================== *)
(** ** Service worker: prefetching and cache update *)
(* ===================================================================== *)

Module ServiceWorkerBackground.
Import JsString ServiceWorker.

(** The request that [fetch(url)] and [cache.put(url, ...)] make of a
    URL that is absolute. *)
Definition request_of (u : string) : Request :=
  {| url := u; method := "GET"; destination := EmptyString |}.

(** The function that [prefetchUrls] maps over its URLs: the response is
    fetched and, when it has [ok], [addTimestamp] is called on it and it
    is put in the dynamic cache; an error is logged and swallowed. *)
Definition prefetchUrl (u : string) : M unit :=
  try_catch
    (response ← fetch (request_of u);
     if ok (content response) then
       response' ← addTimestamp response;
       cache_put DYNAMIC_CACHE (request_of u) response'
     else mret tt)
    (fun error => mret tt).

(** The function that [updateCaches] maps over [STATIC_ASSETS]: the
    response is fetched and, when it has [ok], put in the static cache as
    it is; an error is logged and swallowed. *)
Definition updateAsset (u : string) : M unit :=
  try_catch
    (response ← fetch (request_of u);
     if ok (content response) then cache_put STATIC_CACHE (request_of u) response
     else mret tt)
    (fun error => mret tt).

End ServiceWorkerBackground.

(* ===================================================================== *)
(** ** Performance optimizer: preloading, data saving, rounds of the queue *)
(* ===================================================================== *)

Module PerformanceOptimizerPage.
Import PerformanceOptimizer.

(** *** Preloading *)

(** A [link] element that was appended to the head of the document. *)
Record Link := mkLink {
  rel : string;
  href : string;
  as_ : option string;
  crossOrigin : option string
}.

(** The set [loadedModules] and the links appended so far, in order. *)
Record Preloader := mkPreloader {
  loadedModules : gset string;
  links : list Link
}.

(** The link that [preloadResource] builds. *)
Definition preload_link (url type : string) : Link :=
  if String.eqb type "auto" then
    if JsString.endsWith ".css" url then
      {| rel := "preload"; href := url; as_ := Some "style"; crossOrigin := None |}
    else if JsString.endsWith ".js" url then
      {| rel := "preload"; href := url; as_ := Some "script"; crossOrigin := None |}
    else
      {| rel := "preload"; href := url; as_ := Some "fetch";
         crossOrigin := Some "anonymous" |}
  else
    {| rel := "preload"; href := url; as_ := Some type; crossOrigin := None |}.

Definition preloadResource (url type : string) (st : Preloader) : Preloader :=
  if decide (url ∈ loadedModules st) then st
  else {| loadedModules := {[ url ]} ∪ loadedModules st;
          links := links st ++ [preload_link url type] |}.

(** The link that [predictivePreload] builds. *)
Definition prefetch_link (url : string) : Link :=
  {| rel := "prefetch"; href := url; as_ := None; crossOrigin := None |}.

Definition predictivePreload (url : string) (st : Preloader) : Preloader :=
  if decide (url ∈ loadedModules st) then st
  else {| loadedModules := {[ url ]} ∪ loadedModules st;
          links := links st ++ [prefetch_link url] |}.

(** A call of one of the two functions. *)
Inductive Call :=
| Preload (url type : string)
| Prefetch (url : string).

Definition call_url (c : Call) : string :=
  match c with Preload url _ => url | Prefetch url => url end.

Definition call_link (c : Call) : Link :=
  match c with
  | Preload url type => preload_link url type
  | Prefetch url => prefetch_link url
  end.

Definition run_call (st : Preloader) (c : Call) : Preloader :=
  match c with
  | Preload url type => preloadResource url type st
  | Prefetch url => predictivePreload url st
  end.

Definition run_calls (calls : list Call) (st : Preloader) : Preloader :=
  fold_left run_call calls st.

(** *** Data-saving mode *)

(** An image: the URL that its [src] gives, and [dataset.originalSrc]
    ([None] when the element has no [data-original-src] attribute). [src]
    gives an absolute URL back as it was written, and the URL of the
    document when the empty string was written; the URLs kept in the
    attribute are taken to be absolute or empty. *)
Record Image := mkImage {
  src : string;
  originalSrc : option string
}.

(** A [video] or [audio] element. *)
Record Media := mkMedia {
  paused : bool;
  preload : string
}.

Record Page := mkPage {
  documentURL : string;
  bodyClassList : list string;
  media : list Media;
  images : list Image
}.

Definition generateLowQualityVersion (src : string) : string :=
  (src ++ (if JsString.includes "?" src then "&" else "?") ++ "quality=low")%string.

(** Truthiness of [img.dataset.originalSrc]. *)
Definition has_original (img : Image) : bool :=
  match originalSrc img with
  | Some o => JsString.truthy o
  | None => false
  end.

Definition lower_quality (img : Image) : Image :=
  if JsString.truthy (src img) && negb (has_original img)
  then {| src := generateLowQualityVersion (src img); originalSrc := Some (src img) |}
  else img.

Definition enableDataSavingMode (page : Page) : Page :=
  {| documentURL := documentURL page;
     bodyClassList := IconManager.classList_add "data-saving-mode" (bodyClassList page);
     media := map (fun el => {| paused := true; preload := "none" |}) (media page);
     images := map lower_quality (images page) |}.

(** The images of the selector [img[data-original-src]] get the URL of
    the attribute written to [src] and lose the attribute. *)
Definition restore_quality (document : string) (img : Image) : Image :=
  match originalSrc img with
  | Some o => {| src := if JsString.truthy o then o else document; originalSrc := None |}
  | None => img
  end.

Definition disableDataSavingMode (page : Page) : Page :=
  {| documentURL := documentURL page;
     bodyClassList :=
       IconManagerToggle.classList_remove "data-saving-mode" (bodyClassList page);
     media := media page;
     images := map (restore_quality (documentURL page)) (images page) |}.

(** *** Rounds of the resource queue *)

(** [processResourceQueue] and the calls that it schedules for itself,
    when nothing else is queued in between. The list gives [isOnline] at
    each call; the result is the batch of loads that each call started,
    and the queue that is left when the calls of the list are used up or
    no further call is scheduled. *)
Fixpoint processResourceQueue_rounds (isOnline : list bool) (resourceQueue : list Item)
  : list (list string) * list Item :=
  match isOnline with
  | [] => ([], resourceQueue)
  | online :: later =>
      let '(processing, rest, again) := processResourceQueue online resourceQueue in
      if again then
        let '(batches, remaining) := processResourceQueue_rounds later rest in
        (processing :: batches, remaining)
      else ([processing], rest)
  end.

End PerformanceOptimizerPage.

(* ===================================================================== *)
(** ** Properties *)
(* ===================================================================== *)


Section JsStringFacts.
Import JsString.

Lemma small_digit d : 0 <= d < 10 ->
  d = 0 \/ d = 1 \/ d = 2 \/ d = 3 \/ d = 4 \/ d = 5 \/ d = 6 \/ d = 7 \/ d = 8 \/ d = 9.
Proof. lia. Qed.

Ltac each_digit d H :=
  destruct (small_digit d H) as [->|[->|[->|[->|[->|[->|[->|[->|[->| ->]]]]]]]]].

Lemma digit_of_ascii_of_digit d :
  0 <= d < 10 -> digit_of_ascii (ascii_of_digit d) = Some d.
Proof. intros H. each_digit d H; reflexivity. Qed.

Lemma parse_digits_step a d s :
  0 <= d < 10 ->
  parse_digits 10 a (String (ascii_of_digit d) s) = parse_digits 10 (10 * a + d) s.
Proof.
  intros H. cbn [parse_digits]. rewrite digit_of_ascii_of_digit by done.
  destruct (d <? 10) eqn:E; [done | lia].
Qed.

Lemma parse_digits_digits_of fuel : forall n s,
  0 <= n < 10 ^ Z.of_nat fuel ->
  exists k, 0 <= k /\
    forall a, parse_digits 10 a (digits_of fuel n s) = parse_digits 10 (a * 10 ^ k + n) s.
Proof.
  induction fuel as [|fuel IH]; intros n s Hn.
  - exists 0. split; [lia|]. intros a. cbn in *. f_equal. lia.
  - cbn [digits_of]. destruct (n <? 10) eqn:E.
    + exists 1. split; [lia|]. intros a.
      rewrite parse_digits_step by (apply Z.mod_pos_bound; lia).
      f_equal. rewrite Z.mod_small by lia. lia.
    + assert (Hq : 0 <= n / 10 < 10 ^ Z.of_nat fuel).
      { split; [apply Z.div_pos; lia|].
        apply Z.div_lt_upper_bound; [lia|].
        rewrite Nat2Z.inj_succ, Z.pow_succ_r in Hn; lia. }
      destruct (IH (n / 10) (String (ascii_of_digit (n mod 10)) s) Hq) as (k & Hk & Heq).
      exists (k + 1). split; [lia|]. intros a.
      rewrite Heq, parse_digits_step by (apply Z.mod_pos_bound; lia).
      f_equal. rewrite Z.pow_add_r by lia.
      pose proof (Z.div_mod n 10). lia.
Qed.

Lemma digits_of_head fuel : forall n s,
  0 <= n -> head_is_decimal s ->
  exists d r, 0 <= d < 10 /\
    digits_of (S fuel) n s = String (ascii_of_digit d) r /\ head_is_decimal r.
Proof.
  induction fuel as [|fuel IH]; intros n s Hn Hs.
  - cbn [digits_of]. exists (n mod 10), s.
    split; [apply Z.mod_pos_bound; lia|]. split; [|done].
    by destruct (n <? 10).
  - change (digits_of (S (S fuel)) n s) with
      (if n <? 10 then String (ascii_of_digit (n mod 10)) s
       else digits_of (S fuel) (n / 10) (String (ascii_of_digit (n mod 10)) s)).
    destruct (n <? 10).
    + exists (n mod 10), s. split; [apply Z.mod_pos_bound; lia|]. done.
    + apply IH; [apply Z.div_pos; lia|].
      right. exists (n mod 10), s. split; [apply Z.mod_pos_bound; lia|]. done.
Qed.

Lemma parseInt_decimal d r :
  0 <= d < 10 -> head_is_decimal r ->
  parseInt (String (ascii_of_digit d) r) =
    Some (parse_digits 10 0 (String (ascii_of_digit d) r)).
Proof.
  intros Hd Hr.
  rewrite <- (Z.mul_1_l (parse_digits 10 0 (String (ascii_of_digit d) r))).
  destruct Hr as [->|(d' & r' & Hd' & ->)].
  - each_digit d Hd; reflexivity.
  - each_digit d Hd; try reflexivity.
    each_digit d' Hd'; reflexivity.
Qed.

(** A non-negative timestamp written with [toString] is read back by
    [parseInt]. *)
Lemma parseInt_toString n : 0 <= n -> parseInt (toString n) = Some n.
Proof.
  intros Hn. unfold toString.
  destruct (n <? 0) eqn:E; [lia|]. clear E.
  set (fuel := Z.to_nat (Z.log2 n)).
  destruct (digits_of_head fuel n EmptyString Hn) as (d & r & Hd & Heq & Hr); [by left|].
  rewrite Heq, parseInt_decimal by done. rewrite <- Heq. f_equal.
  assert (Hb : 0 <= n < 10 ^ Z.of_nat (S fuel)).
  { split; [done|]. subst fuel. rewrite Nat2Z.inj_succ, Z2Nat.id by apply Z.log2_nonneg.
    destruct (Z.eq_dec n 0) as [->|Hne]; [done|].
    pose proof (Z.log2_spec n ltac:(lia)) as [_ Hlt].
    eapply Z.lt_le_trans; [exact Hlt|].
    apply Z.pow_le_mono_l. pose proof (Z.log2_nonneg n). lia. }
  destruct (parse_digits_digits_of (S fuel) n EmptyString Hb) as (k & Hk & Hp).
  rewrite Hp. cbn. lia.
Qed.

Lemma toString_truthy n : 0 <= n -> truthy (toString n) = true.
Proof.
  intros Hn. unfold toString. destruct (n <? 0) eqn:E; [lia|].
  destruct (digits_of_head (Z.to_nat (Z.log2 n)) n EmptyString Hn)
    as (d & r & _ & -> & _); [by left | done].
Qed.

End JsStringFacts.

Section ServiceWorkerSteps.
Import JsString ServiceWorker.

Lemma run_cache_match name request w :
  cache_match name request w =
    (Ok (mkObject immutable <$> cache_of w name !! url request), looked_up name request w).
Proof. reflexivity. Qed.

Lemma run_fetch request w :
  fetch request w =
    match outcome (network w request) with
    | Some r => (Ok {| guard := immutable; content := r |}, fetched request w)
    | None => (Throw (NetworkError (url request)), fetched request w)
    end.
Proof.
  unfold fetch, mbind, M_bind, bind, emit, net_call. cbn.
  by destruct (outcome (network w request)).
Qed.

Lemma run_usable cached maxAge w :
  usable cached maxAge w =
    (Ok (match cached with
         | Some c => negb (expired_at (clock w) (content c) maxAge)
         | None => false
         end), w).
Proof. by destruct cached. Qed.

(** [addTimestamp] on a response with immutable headers throws, whatever
    the instant. *)
Lemma run_addTimestamp r w :
  addTimestamp {| guard := immutable; content := r |} w = (Throw TypeError, w).
Proof. reflexivity. Qed.

(** The store step on a response that [fetch] gave: a response with [ok]
    is cloned and [addTimestamp] throws on the clone, so that [put] is
    not reached. *)
Lemma run_store_if_ok name request r w :
  store_if_ok name request {| guard := immutable; content := r |} w =
    if ok r then (Throw TypeError, w) else (Ok tt, w).
Proof. unfold store_if_ok. cbn [content]. by destruct (ok r). Qed.

(** Symbolic execution of a cache-first handler on the cache [name]. *)
Ltac run_cache_first name maxAge request w :=
  unfold static_fallback, fresh_entry, try_catch, mbind, M_bind, bind;
  rewrite run_cache_match, run_usable;
  change (cache_of (looked_up name request w) name) with (cache_of w name);
  change (clock (looked_up name request w)) with (clock w);
  let Hc := fresh "Hc" in
  destruct (cache_of w name !! url request) as [?c|] eqn:Hc;
    cbn [fmap option_fmap option_map content];
    [match goal with
     | |- context [expired_at (clock w) ?c maxAge] =>
         destruct (expired_at (clock w) c maxAge); cbn [negb]
     end|];
    try reflexivity;
    rewrite run_fetch;
    change (network (looked_up name request w)) with (network w);
    (destruct (outcome (network w request)) as [?r|];
     [rewrite run_store_if_ok; destruct (ok r); [|reflexivity]|]);
    rewrite run_cache_match;
    change (cache_of (fetched request (looked_up name request w)) name)
      with (cache_of w name);
    rewrite Hc; cbn [fmap option_fmap option_map content]; try reflexivity.

(** [handleStaticAsset], step by step. A response with [ok] ends in the
    [catch] block like a failure of the network, with the [TypeError] of
    [addTimestamp]. *)
Lemma handleStaticAsset_eq request w :
  handleStaticAsset request w =
    let w1 := looked_up STATIC_CACHE request w in
    match fresh_entry w STATIC_CACHE (CACHE_EXPIRY static) request with
    | Some c => (Ok c, w1)
    | None =>
        let w2 := looked_up STATIC_CACHE request (fetched request w1) in
        match outcome (network w request) with
        | Some r =>
            if ok r then (static_fallback request w TypeError, w2)
            else (Ok r, fetched request w1)
        | None => (static_fallback request w (NetworkError (url request)), w2)
        end
    end.
Proof.
  unfold handleStaticAsset.
  run_cache_first STATIC_CACHE (CACHE_EXPIRY static) request w;
    by destruct (String.eqb (destination request) "document").
Qed.

Lemma handleImageRequest_eq request w :
  handleImageRequest request w =
    let w1 := looked_up IMAGE_CACHE request w in
    match fresh_entry w IMAGE_CACHE (CACHE_EXPIRY images) request with
    | Some c => (Ok c, w1)
    | None =>
        let w2 := looked_up IMAGE_CACHE request (fetched request w1) in
        let fallback :=
          Ok (default createPlaceholderImage (cache_of w IMAGE_CACHE !! url request)) in
        match outcome (network w request) with
        | Some r => if ok r then (fallback, w2) else (Ok r, fetched request w1)
        | None => (fallback, w2)
        end
    end.
Proof.
  unfold handleImageRequest.
  run_cache_first IMAGE_CACHE (CACHE_EXPIRY images) request w.
Qed.

(** The [catch] block of the two network-first handlers, after the
    attempt: the world, and the entry of the dynamic cache. *)
Ltac run_network_first request w :=
  unfold fresh_entry, try_catch, mbind, M_bind, bind;
  rewrite run_fetch;
  (destruct (outcome (network w request)) as [?r|];
   [rewrite run_store_if_ok; destruct (ok r); [|reflexivity]|]);
  rewrite run_cache_match, run_usable;
  change (cache_of (fetched request w) DYNAMIC_CACHE) with (cache_of w DYNAMIC_CACHE);
  change (clock (looked_up DYNAMIC_CACHE request (fetched request w)))
    with (clock (fetched request w));
  (destruct (cache_of w DYNAMIC_CACHE !! url request) as [?c|];
   cbn [fmap option_fmap option_map content]; [|reflexivity]);
  match goal with
  | |- context [expired_at ?t ?c ?m] => destruct (expired_at t c m); reflexivity
  end.

Lemma handleDynamicRequest_eq request w :
  handleDynamicRequest request w =
    let w1 := fetched request w in
    let w2 := looked_up DYNAMIC_CACHE request w1 in
    let caught error :=
      match fresh_entry w1 DYNAMIC_CACHE (CACHE_EXPIRY dynamic) request with
      | Some c => (Ok c, w2)
      | None => (Throw error, w2)
      end in
    match outcome (network w request) with
    | Some r => if ok r then caught TypeError else (Ok r, w1)
    | None => caught (NetworkError (url request))
    end.
Proof. unfold handleDynamicRequest. cbv zeta. run_network_first request w. Qed.

Lemma handleApiRequest_eq request w :
  handleApiRequest request w =
    let w1 := fetched request w in
    let w2 := looked_up DYNAMIC_CACHE request w1 in
    let caught :=
      match fresh_entry w1 DYNAMIC_CACHE (CACHE_EXPIRY api) request with
      | Some c => (Throw TypeError, w2)
      | None => (Ok (offlineApiResponse (clock w1)), w2)
      end in
    match outcome (network w request) with
    | Some r => if ok r then caught else (Ok r, w1)
    | None => caught
    end.
Proof. unfold handleApiRequest. cbv zeta. run_network_first request w. Qed.

Lemma handleDefaultRequest_eq request w :
  handleDefaultRequest request w =
    match outcome (network w request) with
    | Some r => (Ok r, fetched request w)
    | None =>
        if String.eqb (destination request) "document"
        then (Ok createOfflinePage, fetched request w)
        else (Throw (NetworkError (url request)), fetched request w)
    end.
Proof.
  unfold handleDefaultRequest, try_catch, mbind, M_bind, bind. rewrite run_fetch.
  destruct (outcome (network w request)); [reflexivity|].
  by destruct (String.eqb (destination request) "document").
Qed.

Lemma onFetch_route request w s :
  route request = Some s ->
  onFetch request w = (RespondWith (handler s request w).1, (handler s request w).2).
Proof. intros H. unfold onFetch. rewrite H. by destruct (handler s request w). Qed.

(** No handler writes a cache: the one [put] of each handler comes after
    [addTimestamp], which throws. *)
Lemma handler_caches s request w : caches (handler s request w).2 = caches w.
Proof.
  destruct s; cbn [handler].
  - rewrite handleStaticAsset_eq. cbv zeta.
    destruct (fresh_entry w STATIC_CACHE (CACHE_EXPIRY static) request); [reflexivity|].
    destruct (outcome (network w request)) as [r|]; [destruct (ok r)|]; reflexivity.
  - rewrite handleImageRequest_eq. cbv zeta.
    destruct (fresh_entry w IMAGE_CACHE (CACHE_EXPIRY images) request); [reflexivity|].
    destruct (outcome (network w request)) as [r|]; [destruct (ok r)|]; reflexivity.
  - rewrite handleDynamicRequest_eq. cbv zeta.
    destruct (outcome (network w request)) as [r|]; [destruct (ok r)|];
      try reflexivity;
      by destruct (fresh_entry (fetched request w) DYNAMIC_CACHE (CACHE_EXPIRY dynamic) request).
  - rewrite handleApiRequest_eq. cbv zeta.
    destruct (outcome (network w request)) as [r|]; [destruct (ok r)|];
      try reflexivity;
      by destruct (fresh_entry (fetched request w) DYNAMIC_CACHE (CACHE_EXPIRY api) request).
  - rewrite handleDefaultRequest_eq.
    destruct (outcome (network w request)) as [r|]; [reflexivity|].
    by destruct (String.eqb (destination request) "document").
Qed.

Lemma cache_of_fetched request w name :
  cache_of (fetched request w) name = cache_of w name.
Proof. reflexivity. Qed.

Lemma clock_fetched request w :
  clock (fetched request w) = clock w + latency (network w request).
Proof. reflexivity. Qed.

(** The answer of a handler depends on the clock, on the network and on
    the handler's own cache alone. *)
Lemma handler_frame s request w w' :
  clock w' = clock w -> network w' = network w ->
  (forall name, cache_name s = Some name -> cache_of w' name = cache_of w name) ->
  (handler s request w').1 = (handler s request w).1.
Proof.
  intros Hclock Hnet Hcache. destruct s; cbn [handler].
  - rewrite !handleStaticAsset_eq. cbv zeta. unfold fresh_entry, static_fallback.
    rewrite Hclock, Hnet, (Hcache STATIC_CACHE eq_refl).
    destruct (cache_of w STATIC_CACHE !! url request) as [c|];
      [destruct (expired_at (clock w) c (CACHE_EXPIRY static))|];
      try reflexivity;
      (destruct (outcome (network w request)) as [r|]; [destruct (ok r)|]); reflexivity.
  - rewrite !handleImageRequest_eq. cbv zeta. unfold fresh_entry.
    rewrite Hclock, Hnet, (Hcache IMAGE_CACHE eq_refl).
    destruct (cache_of w IMAGE_CACHE !! url request) as [c|];
      [destruct (expired_at (clock w) c (CACHE_EXPIRY images))|];
      try reflexivity;
      (destruct (outcome (network w request)) as [r|]; [destruct (ok r)|]); reflexivity.
  - rewrite !handleDynamicRequest_eq. cbv zeta. unfold fresh_entry.
    rewrite !cache_of_fetched, !clock_fetched, Hclock, Hnet, (Hcache DYNAMIC_CACHE eq_refl).
    destruct (outcome (network w request)) as [r|]; [destruct (ok r)|]; try reflexivity;
      (destruct (cache_of w DYNAMIC_CACHE !! url request) as [c|]; [|reflexivity]);
      by destruct (expired_at _ c (CACHE_EXPIRY dynamic)).
  - rewrite !handleApiRequest_eq. cbv zeta. unfold fresh_entry.
    rewrite !cache_of_fetched, !clock_fetched, Hclock, Hnet, (Hcache DYNAMIC_CACHE eq_refl).
    destruct (outcome (network w request)) as [r|]; [destruct (ok r)|]; try reflexivity;
      (destruct (cache_of w DYNAMIC_CACHE !! url request) as [c|]; [|reflexivity]);
      by destruct (expired_at _ c (CACHE_EXPIRY api)).
  - rewrite !handleDefaultRequest_eq, Hnet.
    destruct (outcome (network w request)); [reflexivity|].
    by destruct (String.eqb (destination request) "document").
Qed.

(** The events of [handleStaticAsset]: the lookup, then, without a
    fresh entry, the network attempt, and a second lookup unless the
    network gave a response without [ok]. *)
Lemma handleStaticAsset_trace request w :
  trace (handleStaticAsset request w).2 =
    (trace w ++
     CacheMatch STATIC_CACHE (url request) ::
     match fresh_entry w STATIC_CACHE (CACHE_EXPIRY static) request with
     | Some _ => []
     | None =>
         NetFetch (url request) ::
         match outcome (network w request) with
         | Some r => if ok r then [CacheMatch STATIC_CACHE (url request)] else []
         | None => [CacheMatch STATIC_CACHE (url request)]
         end
     end)%list.
Proof.
  rewrite handleStaticAsset_eq. cbv zeta.
  destruct (fresh_entry w STATIC_CACHE (CACHE_EXPIRY static) request); [reflexivity|].
  destruct (outcome (network w request)) as [r|]; [destruct (ok r)|];
    cbn; by rewrite <- ?app_assoc.
Qed.

Lemma handleImageRequest_trace request w :
  trace (handleImageRequest request w).2 =
    (trace w ++
     CacheMatch IMAGE_CACHE (url request) ::
     match fresh_entry w IMAGE_CACHE (CACHE_EXPIRY images) request with
     | Some _ => []
     | None =>
         NetFetch (url request) ::
         match outcome (network w request) with
         | Some r => if ok r then [CacheMatch IMAGE_CACHE (url request)] else []
         | None => [CacheMatch IMAGE_CACHE (url request)]
         end
     end)%list.
Proof.
  rewrite handleImageRequest_eq. cbv zeta.
  destruct (fresh_entry w IMAGE_CACHE (CACHE_EXPIRY images) request); [reflexivity|].
  destruct (outcome (network w request)) as [r|]; [destruct (ok r)|];
    cbn; by rewrite <- ?app_assoc.
Qed.

(** The events of the two network-first handlers: the network attempt,
    and a lookup in the dynamic cache unless the network gave a response
    without [ok]. *)
Lemma handleDynamicRequest_trace request w :
  trace (handleDynamicRequest request w).2 =
    (trace w ++
     NetFetch (url request) ::
     match outcome (network w request) with
     | Some r => if ok r then [CacheMatch DYNAMIC_CACHE (url request)] else []
     | None => [CacheMatch DYNAMIC_CACHE (url request)]
     end)%list.
Proof.
  rewrite handleDynamicRequest_eq. cbv zeta.
  destruct (outcome (network w request)) as [r|]; [destruct (ok r)|];
    try reflexivity;
    destruct (fresh_entry (fetched request w) DYNAMIC_CACHE (CACHE_EXPIRY dynamic) request);
    cbn; by rewrite <- ?app_assoc.
Qed.

Lemma handleApiRequest_trace request w :
  trace (handleApiRequest request w).2 =
    (trace w ++
     NetFetch (url request) ::
     match outcome (network w request) with
     | Some r => if ok r then [CacheMatch DYNAMIC_CACHE (url request)] else []
     | None => [CacheMatch DYNAMIC_CACHE (url request)]
     end)%list.
Proof.
  rewrite handleApiRequest_eq. cbv zeta.
  destruct (outcome (network w request)) as [r|]; [destruct (ok r)|];
    try reflexivity;
    destruct (fresh_entry (fetched request w) DYNAMIC_CACHE (CACHE_EXPIRY api) request);
    cbn; by rewrite <- ?app_assoc.
Qed.

Lemma net_attempts_app evs evs' :
  net_attempts (evs ++ evs') = (net_attempts evs + net_attempts evs')%nat.
Proof. unfold net_attempts. by rewrite List.filter_app, length_app. Qed.

Lemma fresh_entry_Some w name maxAge request c :
  fresh_entry w name maxAge request = Some c <->
  cache_of w name !! url request = Some c /\ expired_at (clock w) c maxAge = false.
Proof.
  unfold fresh_entry. destruct (cache_of w name !! url request) as [c'|]; [|by split; [|intros []]].
  destruct (expired_at (clock w) c' maxAge) eqn:E.
  - split; [done|]. intros [[= ->] H]. congruence.
  - split; [by intros [= ->] | by intros [[= ->] _]].
Qed.

Lemma includes_prefix sub s : String.prefix sub s = true -> includes sub s = true.
Proof. intros H. destruct s; cbn [includes]; by rewrite H. Qed.

Lemma includes_cons sub c s : includes sub s = true -> includes sub (String c s) = true.
Proof. intros H. cbn [includes]. rewrite H. apply orb_true_r. Qed.

(** Every URL with a slash is classified as a static asset, because the
    entry ["/"] of [STATIC_ASSETS] is searched with [includes]. *)
Lemma isStaticAsset_slash request :
  includes "/" (url request) = true -> isStaticAsset request = true.
Proof. intros H. unfold isStaticAsset. cbn [existsb STATIC_ASSETS]. by rewrite H. Qed.

Lemma route_slash request :
  startsWith "http" (url request) = true ->
  method request = "GET" ->
  includes "/" (url request) = true ->
  route request = Some StaticAsset.
Proof.
  intros Hh Hg Hs. unfold route.
  rewrite Hh, Hg, (isStaticAsset_slash _ Hs). reflexivity.
Qed.

Lemma prefix_trans a : forall b c,
  String.prefix a b = true -> String.prefix b c = true -> String.prefix a c = true.
Proof.
  induction a as [|x a IH]; intros b c Hab Hbc.
  - by destruct c.
  - destruct b as [|y b]; [discriminate|]. destruct c as [|z c]; [discriminate|].
    cbn [String.prefix] in *.
    destruct (ascii_dec x y) as [->|]; [|discriminate].
    destruct (ascii_dec y z) as [->|]; [|discriminate].
    by apply (IH b c).
Qed.

Lemma includes_mono sub p : forall u,
  includes sub p = true -> String.prefix p u = true -> includes sub u = true.
Proof.
  induction p as [|c p IH]; intros u Hin Hpre.
  - cbn [includes] in Hin. rewrite orb_false_r in Hin.
    apply includes_prefix. by apply (prefix_trans sub EmptyString u).
  - destruct u as [|c' u]; [discriminate|].
    assert (Hpre' := Hpre). cbn [String.prefix] in Hpre'.
    destruct (ascii_dec c c') as [<-|]; [|discriminate].
    cbn [includes] in Hin. apply orb_true_iff in Hin as [Hin|Hin].
    + apply includes_prefix. by apply (prefix_trans sub (String c p)).
    + apply includes_cons. by apply IH.
Qed.

(** Every GET request for an http or https URL goes to the static
    handler: the other four strategies are out of its reach. *)
Lemma route_http_url request :
  startsWith "http://" (url request) = true \/
  startsWith "https://" (url request) = true ->
  method request = "GET" ->
  route request = Some StaticAsset.
Proof.
  unfold startsWith. intros [H|H] Hget.
  - apply route_slash; [|done|].
    + by apply (prefix_trans "http" "http://").
    + by apply (includes_mono "/" "http://").
  - apply route_slash; [|done|].
    + by apply (prefix_trans "http" "https://").
    + by apply (includes_mono "/" "https://").
Qed.

(** C1 (the code at the failing input). The request for the script
    [https://example.com/static/js/app.js] goes to [handleStaticAsset];
    the static cache is empty and the network answers 200, a response
    with [ok]. The handler clones it and calls [addTimestamp] on the
    clone, whose headers are immutable: [set] throws, [put] is not
    reached, and the [catch] block, finding nothing cached for a request
    that is no document, rejects with the [TypeError]. Nothing is stored.
    So it is for every request: no handler ever writes a cache, and a
    response with [ok] is not what the two cache-first handlers answer
    with, but what their [catch] blocks give. The part of the claim
    before that holds: an entry that is not expired is returned after
    the cache lookup alone. *)
Theorem C1_successful_response_is_not_stored :
  route script_request = Some StaticAsset /\
  outcome (online script_request) = Some sample_ok /\ ok sample_ok = true /\
  (onFetch script_request (empty_world online)).1 = RespondWith (Throw TypeError) /\
  caches (onFetch script_request (empty_world online)).2 = ∅ /\
  trace (onFetch script_request (empty_world online)).2 =
    [ CacheMatch STATIC_CACHE (url script_request); NetFetch (url script_request);
      CacheMatch STATIC_CACHE (url script_request) ] /\
  (forall s request w, caches (handler s request w).2 = caches w) /\
  (forall request w r,
     fresh_entry w STATIC_CACHE (CACHE_EXPIRY static) request = None ->
     outcome (network w request) = Some r -> ok r = true ->
     (handleStaticAsset request w).1 = static_fallback request w TypeError) /\
  (forall request w r,
     fresh_entry w IMAGE_CACHE (CACHE_EXPIRY images) request = None ->
     outcome (network w request) = Some r -> ok r = true ->
     (handleImageRequest request w).1 =
       Ok (default createPlaceholderImage (cache_of w IMAGE_CACHE !! url request))) /\
  (forall request w c,
     fresh_entry w STATIC_CACHE (CACHE_EXPIRY static) request = Some c ->
     handleStaticAsset request w = (Ok c, looked_up STATIC_CACHE request w)) /\
  (forall request w c,
     fresh_entry w IMAGE_CACHE (CACHE_EXPIRY images) request = Some c ->
     handleImageRequest request w = (Ok c, looked_up IMAGE_CACHE request w)).
Proof.
  do 6 (split; [by vm_compute|]).
  split; [apply handler_caches|].
  split; [|split; [|split]].
  - intros request w r Hf Hnet Hok. by rewrite handleStaticAsset_eq, Hf, Hnet, Hok.
  - intros request w r Hf Hnet Hok. by rewrite handleImageRequest_eq, Hf, Hnet, Hok.
  - intros request w c Hf. by rewrite handleStaticAsset_eq, Hf.
  - intros request w c Hf. by rewrite handleImageRequest_eq, Hf.
Qed.

Lemma expired_at_spec now response maxAge :
  expired_at now response maxAge = true <->
    headers response !! TIMESTAMP = None \/
    headers response !! TIMESTAMP = Some EmptyString \/
    exists timestamp t,
      headers response !! TIMESTAMP = Some timestamp /\
      parseInt timestamp = Some t /\ now - t > maxAge.
Proof.
  unfold expired_at.
  destruct (headers response !! TIMESTAMP) as [[|c ts]|] eqn:Hh; cbn [truthy negb].
  - split; [intros _; right; by left | done].
  - destruct (parseInt (String c ts)) as [t|] eqn:Hp.
    + rewrite Z.gtb_gt. split.
      * intros Hlt. right; right. exists (String c ts), t. repeat split; [done | lia].
      * intros [?|[?|(ts' & t' & Hts & Hp' & Hgt)]]; try discriminate.
        injection Hts as <-. rewrite Hp in Hp'. injection Hp' as <-. lia.
    + split; [done|].
      intros [?|[?|(ts' & t' & Hts & Hp' & _)]]; try discriminate.
      injection Hts as <-. congruence.
  - split; [intros _; by left | done].
Qed.

(** A response whose timestamp header holds the decimal digits of [t0],
    as [addTimestamp] writes them, expires when it is older than the
    limit. *)
Lemma expired_at_stamped now t0 r maxAge :
  0 <= t0 -> expired_at now (stamped t0 r) maxAge = (now - t0 >? maxAge).
Proof.
  intros Ht. unfold expired_at, stamped, headers_set. cbn [headers].
  rewrite lookup_insert_eq, toString_truthy, parseInt_toString by done.
  reflexivity.
Qed.

(** Every handler extends the trace; when the extension has no network
    event, the answer is an entry of the handler's cache that is not
    expired. *)
Lemma handler_trace s request w :
  exists evs,
    trace (handler s request w).2 = (trace w ++ evs)%list /\
    (In (NetFetch (url request)) evs \/
     exists name maxAge c,
       cache_name s = Some name /\ max_age s = Some maxAge /\
       fresh_entry w name maxAge request = Some c /\
       (handler s request w).1 = Ok c).
Proof.
  destruct s; cbn [handler].
  - eexists. split; [apply handleStaticAsset_trace|].
    destruct (fresh_entry w STATIC_CACHE (CACHE_EXPIRY static) request) as [c|] eqn:Hf.
    + right. exists STATIC_CACHE, (CACHE_EXPIRY static), c.
      repeat split; [done|]. by rewrite handleStaticAsset_eq, Hf.
    + left. cbn. tauto.
  - eexists. split; [apply handleImageRequest_trace|].
    destruct (fresh_entry w IMAGE_CACHE (CACHE_EXPIRY images) request) as [c|] eqn:Hf.
    + right. exists IMAGE_CACHE, (CACHE_EXPIRY images), c.
      repeat split; [done|]. by rewrite handleImageRequest_eq, Hf.
    + left. cbn. tauto.
  - eexists. split; [apply handleDynamicRequest_trace|]. left. cbn. tauto.
  - eexists. split; [apply handleApiRequest_trace|]. left. cbn. tauto.
  - rewrite handleDefaultRequest_eq.
    destruct (outcome (network w request)) as [r|];
      [|destruct (String.eqb (destination request) "document")];
      eexists; (split; [cbn; reflexivity | left; cbn; tauto]).
Qed.

(** A handler that serves cache-first makes no network attempt exactly
    when its cache holds an entry that is not expired under its limit. *)
Lemma no_attempt_static request w :
  net_attempts (trace (handleStaticAsset request w).2) = net_attempts (trace w) <->
  exists c, cache_of w STATIC_CACHE !! url request = Some c /\
            expired_at (clock w) c (CACHE_EXPIRY static) = false.
Proof.
  rewrite handleStaticAsset_trace, net_attempts_app.
  destruct (fresh_entry w STATIC_CACHE (CACHE_EXPIRY static) request) as [c|] eqn:Hf.
  - apply fresh_entry_Some in Hf. split; [by exists c | cbn; lia].
  - split.
    + unfold net_attempts at 2. cbn [List.filter is_net_fetch length]. lia.
    + intros (c & Hc). apply fresh_entry_Some in Hc. congruence.
Qed.

Lemma no_attempt_image request w :
  net_attempts (trace (handleImageRequest request w).2) = net_attempts (trace w) <->
  exists c, cache_of w IMAGE_CACHE !! url request = Some c /\
            expired_at (clock w) c (CACHE_EXPIRY images) = false.
Proof.
  rewrite handleImageRequest_trace, net_attempts_app.
  destruct (fresh_entry w IMAGE_CACHE (CACHE_EXPIRY images) request) as [c|] eqn:Hf.
  - apply fresh_entry_Some in Hf. split; [by exists c | cbn; lia].
  - split.
    + unfold net_attempts at 2. cbn [List.filter is_net_fetch length]. lia.
    + intros (c & Hc). apply fresh_entry_Some in Hc. congruence.
Qed.

(** C3 (counterexample). A cached response that carries the timestamp
    header with an empty value is treated as expired, although it has the
    header and no age that exceeds a limit. *)
Lemma C3_empty_timestamp_is_expired :
  expired_at 0 empty_stamp (CACHE_EXPIRY static) = true /\
  ~ stated_expired 0 empty_stamp (CACHE_EXPIRY static).
Proof.
  split; [reflexivity|].
  intros [H|(ts & t & Hts & Hp & _)].
  - vm_compute in H. discriminate.
  - vm_compute in Hts. injection Hts as <-. discriminate.
Qed.

(** C3 (amended). A cached response is treated as expired exactly when it
    has no timestamp header, or an empty one, or when the current time
    minus the number that [parseInt] reads from the header exceeds the
    limit; a response whose header holds the digits of an instant [t0]
    is expired exactly when it is older than the limit. Each handler
    applies the limit of its class, in milliseconds: [handleStaticAsset]
    answers without a network attempt exactly when the static cache
    holds an entry that is not expired under 7 days, [handleImageRequest]
    exactly when the image cache holds one that is not expired under 30
    days; after a failed attempt, [handleDynamicRequest] answers with the
    entry of the dynamic cache when it is not expired under 3 days and
    rejects otherwise, and [handleApiRequest] answers with its 503
    exactly when the entry is missing or expired under 5 minutes. And
    whenever a handler answers without a network attempt, its answer is
    an entry that is not expired under the limit of its class. *)
Theorem C3_ttl_expiry :
  (forall now response maxAge,
     expired_at now response maxAge = true <->
       headers response !! TIMESTAMP = None \/
       headers response !! TIMESTAMP = Some EmptyString \/
       exists timestamp t,
         headers response !! TIMESTAMP = Some timestamp /\
         parseInt timestamp = Some t /\ now - t > maxAge) /\
  (forall now t0 r maxAge,
     0 <= t0 -> (expired_at now (stamped t0 r) maxAge = true <-> now - t0 > maxAge)) /\
  (forall request w,
     net_attempts (trace (handleStaticAsset request w).2) = net_attempts (trace w) <->
     exists c, cache_of w STATIC_CACHE !! url request = Some c /\
               expired_at (clock w) c 604800000 = false) /\
  (forall request w,
     net_attempts (trace (handleImageRequest request w).2) = net_attempts (trace w) <->
     exists c, cache_of w IMAGE_CACHE !! url request = Some c /\
               expired_at (clock w) c 2592000000 = false) /\
  (forall request w,
     outcome (network w request) = None ->
     (handleDynamicRequest request w).1 =
       match cache_of w DYNAMIC_CACHE !! url request with
       | Some c =>
           if expired_at (clock w + latency (network w request)) c 259200000
           then Throw (NetworkError (url request))
           else Ok c
       | None => Throw (NetworkError (url request))
       end) /\
  (forall request w,
     outcome (network w request) = None ->
     ((handleApiRequest request w).1 =
        Ok (offlineApiResponse (clock w + latency (network w request))) <->
      forall c, cache_of w DYNAMIC_CACHE !! url request = Some c ->
                expired_at (clock w + latency (network w request)) c 300000 = true)) /\
  (forall s request w evs,
     trace (handler s request w).2 = (trace w ++ evs)%list ->
     ~ In (NetFetch (url request)) evs ->
     exists name maxAge c,
       cache_name s = Some name /\ max_age s = Some maxAge /\
       cache_of w name !! url request = Some c /\
       expired_at (clock w) c maxAge = false /\
       (handler s request w).1 = Ok c).
Proof.
  split; [apply expired_at_spec|].
  split.
  { intros now t0 r maxAge Ht. rewrite expired_at_stamped by done. apply Z.gtb_gt. }
  split; [apply no_attempt_static|]. split; [apply no_attempt_image|].
  split; [|split].
  - intros request w Hnet. rewrite handleDynamicRequest_eq, Hnet. cbv zeta.
    unfold fresh_entry.
    change (cache_of (fetched request w) DYNAMIC_CACHE) with (cache_of w DYNAMIC_CACHE).
    change (clock (fetched request w)) with (clock w + latency (network w request)).
    change (CACHE_EXPIRY dynamic) with 259200000.
    destruct (cache_of w DYNAMIC_CACHE !! url request) as [c|]; [|reflexivity].
    by destruct (expired_at (clock w + latency (network w request)) c 259200000).
  - intros request w Hnet. rewrite handleApiRequest_eq, Hnet. cbv zeta.
    unfold fresh_entry.
    change (cache_of (fetched request w) DYNAMIC_CACHE) with (cache_of w DYNAMIC_CACHE).
    change (clock (fetched request w)) with (clock w + latency (network w request)).
    change (CACHE_EXPIRY api) with 300000.
    destruct (cache_of w DYNAMIC_CACHE !! url request) as [c|]; [|by split].
    destruct (expired_at (clock w + latency (network w request)) c 300000) eqn:E; cbn [fst].
    + split; [|done]. intros _ c' [= <-]. exact E.
    + split; [discriminate|]. intros H. specialize (H c eq_refl). congruence.
  - intros s request w evs Htr Hnot.
    destruct (handler_trace s request w) as (evs' & Htr' & [Hin|Hfresh]).
    + rewrite Htr in Htr'. apply app_inv_head in Htr'. by subst.
    + destruct Hfresh as (name & maxAge & c & Hn & Hm & Hf & Hres).
      apply fresh_entry_Some in Hf as [Hc He].
      by exists name, maxAge, c.
Qed.

Lemma C3_stamped_entry_witness :
  expired_at 1700000300001 (stamped 1700000000000 sample_ok) (CACHE_EXPIRY api) = true.
Proof.
  apply (proj1 (proj2 C3_ttl_expiry)); [lia | reflexivity].
Defined.

(** C2 (the code at the failing input). The request for
    [https://example.com/api/data] is an API request, yet the listener
    routes it to [handleStaticAsset]: in every world the first thing done
    for it is a lookup in the static cache, before any network attempt,
    and an entry there that is not expired is the answer, with no network
    attempt at all. With empty caches and the network up the events are
    the lookup, the network attempt and a second lookup. *)
Theorem C2_api_request_is_served_cache_first :
  isApiRequest api_request = true /\
  route api_request = Some StaticAsset /\
  (forall w, exists rest,
     trace (onFetch api_request w).2 =
       (trace w ++ CacheMatch STATIC_CACHE (url api_request) :: rest)%list) /\
  (forall w c,
     fresh_entry w STATIC_CACHE (CACHE_EXPIRY static) api_request = Some c ->
     onFetch api_request w =
       (RespondWith (Ok c), looked_up STATIC_CACHE api_request w)) /\
  trace (onFetch api_request (empty_world online)).2 =
    [ CacheMatch STATIC_CACHE (url api_request); NetFetch (url api_request);
      CacheMatch STATIC_CACHE (url api_request) ].
Proof.
  assert (Hroute : route api_request = Some StaticAsset) by reflexivity.
  split; [reflexivity|]. split; [exact Hroute|]. split; [|split].
  - intros w. rewrite (onFetch_route _ _ _ Hroute). cbn [snd handler].
    rewrite handleStaticAsset_trace. by eexists.
  - intros w c Hf. rewrite (onFetch_route _ _ _ Hroute). cbn [fst snd handler].
    by rewrite handleStaticAsset_eq, Hf.
  - by vm_compute.
Qed.

(** What [handleImageRequest] does once the network has failed: the
    cached copy when there is one, the placeholder otherwise. *)
Lemma handleImageRequest_offline request w :
  outcome (network w request) = None ->
  (handleImageRequest request w).1 =
    Ok (default createPlaceholderImage (cache_of w IMAGE_CACHE !! url request)).
Proof.
  intros Hnet. rewrite handleImageRequest_eq. cbv zeta. unfold fresh_entry. rewrite Hnet.
  destruct (cache_of w IMAGE_CACHE !! url request) as [c|]; [|reflexivity].
  by destruct (expired_at (clock w) c (CACHE_EXPIRY images)).
Qed.

Lemma createPlaceholderImage_svg :
  status createPlaceholderImage = 200 /\
  headers createPlaceholderImage !! "Content-Type" = Some "image/svg+xml" /\
  exists svg, body createPlaceholderImage = Text svg /\
    startsWith "<svg" (trim_start svg) = true.
Proof.
  split; [reflexivity|]. split; [reflexivity|].
  exists placeholder_svg. split; reflexivity.
Qed.

(** What the listener does with a failed request for an http or https
    URL that the static cache does not hold: unless the request is for a
    document, the promise given to [respondWith] rejects. *)
Lemma onFetch_offline_uncached request w :
  startsWith "http://" (url request) = true \/
  startsWith "https://" (url request) = true ->
  method request = "GET" ->
  outcome (network w request) = None ->
  cache_of w STATIC_CACHE !! url request = None ->
  destination request <> "document" ->
  (onFetch request w).1 = RespondWith (Throw (NetworkError (url request))).
Proof.
  intros Hurl Hget Hnet Hcache Hdest.
  rewrite (onFetch_route _ _ _ (route_http_url _ Hurl Hget)). cbn [fst handler].
  rewrite handleStaticAsset_eq. cbv zeta. unfold fresh_entry, static_fallback.
  rewrite Hcache, Hnet. cbn [fst].
  destruct (String.eqb_spec (destination request) "document"); [contradiction | reflexivity].
Qed.

(** C4 (the code at the failing input). The request for
    [https://example.com/logo.png] is an image request; with the network
    down and nothing cached, the listener hands it to [handleStaticAsset],
    whose promise rejects with the network error, although
    [handleImageRequest] would have answered with the placeholder. *)
Theorem C4_image_failure_reaches_the_page :
  isImageRequest image_request = true /\
  route image_request = Some StaticAsset /\
  (onFetch image_request (empty_world offline)).1 =
    RespondWith (Throw (NetworkError (url image_request))) /\
  (handleImageRequest image_request (empty_world offline)).1 = Ok createPlaceholderImage.
Proof. vm_compute. repeat split; reflexivity. Qed.

(** C5. When the network request of [handleApiRequest] fails and the
    dynamic cache has no entry that is still fresh, the handler makes one
    network attempt, lets no time pass beyond that attempt, and resolves
    with the response 503 Service Unavailable whose JSON body has the
    error message, [offline: true] and the current time. *)
Theorem C5_api_failure_gives_503 request w :
  outcome (network w request) = None ->
  fresh_entry (fetched request w) DYNAMIC_CACHE (CACHE_EXPIRY api) request = None ->
  answered_unavailable request w.
Proof.
  intros Hnet Hfresh. unfold answered_unavailable.
  rewrite handleApiRequest_eq, Hnet. cbv zeta. rewrite Hfresh.
  eexists _, _. split; [reflexivity|].
  repeat split. cbn. by rewrite <- app_assoc.
Qed.

Lemma C5_offline_api_witness :
  answered_unavailable api_request (empty_world offline).
Proof.
  apply (C5_api_failure_gives_503 api_request (empty_world offline)); reflexivity.
Defined.





End ServiceWorkerSteps.

Section ThemeManagerFacts.
Import ThemeManager.

Lemma contains_app classes1 classes2 c :
  contains (classes1 ++ classes2) c = contains classes1 c || contains classes2 c.
Proof. unfold contains. apply existsb_app. Qed.

Lemma contains_add token classes c :
  contains (classList_add token classes) c = String.eqb c token || contains classes c.
Proof.
  unfold classList_add. destruct (contains classes token) eqn:E.
  - destruct (String.eqb_spec c token) as [->|]; [by rewrite E | reflexivity].
  - rewrite contains_app. cbn. rewrite orb_false_r. apply orb_comm.
Qed.

Lemma contains_In classes c : contains classes c = true <-> In c classes.
Proof.
  unfold contains. rewrite existsb_exists. split.
  - intros (x & Hin & Heq). apply String.eqb_eq in Heq. by subst.
  - intros Hin. exists c. split; [done | apply String.eqb_refl].
Qed.

Lemma contains_remove tokens classes c :
  contains (classList_remove tokens classes) c = contains classes c && negb (contains tokens c).
Proof.
  apply eq_true_iff_eq. unfold classList_remove.
  rewrite andb_true_iff, !contains_In, filter_In. reflexivity.
Qed.

Lemma theme_class_eqb k themeName :
  String.eqb (theme_class k) (theme_class themeName) = String.eqb k themeName.
Proof. reflexivity. Qed.

(** After [applyTheme], the body carries the class of a table theme
    exactly when it is the theme applied. *)
Lemma contains_applyTheme k themeName st :
  In k theme_keys ->
  contains (bodyClassList (applyTheme themeName st)) (theme_class k) = String.eqb k themeName.
Proof.
  intros Hk. cbn [applyTheme bodyClassList].
  rewrite contains_add, contains_remove, theme_class_eqb.
  assert (Hin : contains (map theme_class theme_keys) (theme_class k) = true).
  { apply contains_In, in_map, Hk. }
  rewrite Hin. cbn. by rewrite andb_false_r, orb_false_r.
Qed.

Lemma applied_themes_applyTheme themeName st :
  applied_themes (applyTheme themeName st) =
    List.filter (fun k => String.eqb k themeName) theme_keys.
Proof.
  unfold applied_themes. apply filter_ext_in. intros k Hk. by apply contains_applyTheme.
Qed.

Lemma setTheme_known themeName st :
  truthy (themes_get themeName) = true ->
  setTheme themeName st =
    showThemeNotification (name_of (themes_get themeName))
      (setItem "preferred-theme" themeName
         (updateActiveButton themeName
            (applyTheme themeName (set_currentTheme themeName st)))).
Proof. intros H. unfold setTheme. by rewrite H. Qed.

Lemma setTheme_unknown themeName st :
  themes_get themeName = VUndefined -> setTheme themeName st = st.
Proof. intros H. unfold setTheme. by rewrite H. Qed.

Ltac each_theme H :=
  repeat (destruct H as [<-|H]; [|]); [..|destruct H].

(** Selecting a theme of the table stores its name, and a later page
    load applies exactly that theme. *)
Lemma setTheme_round_trip themeName st classes :
  In themeName theme_keys ->
  let st' := setTheme themeName st in
  localStorage st' !! "preferred-theme" = Some themeName /\
  currentTheme st' = themeName /\
  applied_themes st' = [themeName] /\
  let st'' := init (localStorage st') classes in
  currentTheme st'' = themeName /\ applied_themes st'' = [themeName].
Proof.
  intros Hin. cbv zeta.
  assert (Ht : truthy (themes_get themeName) = true) by (each_theme Hin; reflexivity).
  assert (Hne : JsString.truthy themeName = true) by (each_theme Hin; reflexivity).
  assert (Hf : List.filter (fun k => String.eqb k themeName) theme_keys = [themeName])
    by (each_theme Hin; reflexivity).
  rewrite setTheme_known by done.
  split; [cbn; apply lookup_insert_eq|]. split; [reflexivity|].
  split.
  { change (applied_themes (showThemeNotification ?n (setItem ?k ?v (updateActiveButton ?t ?x))))
      with (applied_themes x).
    by rewrite applied_themes_applyTheme. }
  unfold init, loadSavedTheme.
  cbn [localStorage showThemeNotification setItem].
  rewrite lookup_insert_eq, Hne, Ht. cbn [andb].
  split; [reflexivity|].
  change (applied_themes (createThemeSelector ?x)) with (applied_themes x).
  by rewrite applied_themes_applyTheme.
Qed.

(** C6 (the code at the failing input). [constructor] is not a theme of
    the table, but [this.themes["constructor"]] is the function inherited
    from [Object.prototype], so the guard of [setTheme] lets it through:
    the name is stored under [preferred-theme], becomes the current theme,
    and its class is put on the body. *)
Theorem C6_setTheme_accepts_inherited_name :
  let st0 := init ∅ [] in
  let st := setTheme "constructor" st0 in
  ~ In "constructor" theme_keys /\
  localStorage st0 !! "preferred-theme" = None /\
  localStorage st !! "preferred-theme" = Some "constructor" /\
  currentTheme st = "constructor" /\
  bodyClassList st = ["theme-constructor"] /\
  notification st = Some "Object".
Proof.
  cbv zeta. split; [|vm_compute; repeat split; reflexivity].
  cbn. intros H. repeat (destruct H as [H|H]; [discriminate|]). done.
Qed.

End ThemeManagerFacts.

Section IconManagerFacts.
Import IconManager.

(** [first_match] finds the emoji of the first entry whose key is a class
    of the element. *)
Lemma first_match_first pre key emoji post classes :
  In key classes ->
  (forall k v, In (k, v) pre -> ~ In k classes) ->
  first_match (pre ++ (key, emoji) :: post) classes = Some emoji.
Proof.
  intros Hkey Hpre. induction pre as [|[k v] pre IH]; cbn [first_match app].
  - assert (H : contains classes key = true).
    { unfold contains. apply existsb_exists. exists key. split; [done | apply String.eqb_refl]. }
    by rewrite H.
  - destruct (contains classes k) eqn:E.
    + exfalso. apply (Hpre k v); [by left|].
      unfold contains in E. apply existsb_exists in E as (x & Hx & Heq).
      apply String.eqb_eq in Heq. by subst.
    + apply IH. intros k' v' Hin. apply (Hpre k' v'). by right.
Qed.

Lemma first_match_none entries classes :
  (forall k v, In (k, v) entries -> ~ In k classes) ->
  first_match entries classes = None.
Proof.
  intros Hno. induction entries as [|[k v] entries IH]; [reflexivity|].
  cbn [first_match]. destruct (contains classes k) eqn:E.
  - exfalso. apply (Hno k v); [by left|].
    unfold contains in E. apply existsb_exists in E as (x & Hx & Heq).
    apply String.eqb_eq in Heq. by subst.
  - apply IH. intros k' v' Hin. apply (Hno k' v'). by right.
Qed.

Lemma is_icon_spec e :
  is_icon e = true <->
    tagName e = "i" /\
    (In "fas" (classList e) \/ In "fa" (classList e) \/
     In "far" (classList e) \/ In "fab" (classList e)).
Proof.
  unfold is_icon, contains.
  rewrite andb_true_iff, !orb_true_iff, String.eqb_eq, !existsb_exists.
  assert (Hc : forall c, (exists x, In x (classList e) /\ String.eqb c x = true)
                         <-> In c (classList e)).
  { intros c. split.
    - intros (x & Hx & Heq). apply String.eqb_eq in Heq. by subst.
    - intros Hin. exists c. split; [done | apply String.eqb_refl]. }
  rewrite !Hc. tauto.
Qed.

(** The document that [checkFontAwesome] leaves when Font Awesome is not
    detected. *)
Lemma checkFontAwesome_not_loaded contents m doc :
  hasFontAwesome contents = false ->
  let m' := {| iconMap := iconMap m; isEmojiModeActive := true |} in
  checkFontAwesome contents m doc =
    Done m'
         {| bodyClassList := classList_add "icon-fallback-active" (bodyClassList doc);
            elements := map (fun e => if is_icon e
                                      then setupIconFallback m' e else e) (elements doc);
            notifications := S (notifications doc) |}.
Proof.
  intros H m'. unfold checkFontAwesome. rewrite H.
  cbn [negb enableEmojiIcons updateAllIcons showIconNotification
       bodyClassList elements notifications iconMap].
  fold m'. f_equal. f_equal.
  set (f := fun e => if is_icon e then setupIconFallback m' e else e).
  rewrite map_app, <- (length_map f (elements doc)).
  by rewrite firstn_app, Nat.sub_diag, firstn_all, app_nil_r.
Qed.

(** C7. When Font Awesome is detected as not loaded, the body gets the
    class [icon-fallback-active], and every element selected by
    [i.fas, i.fa, i.far, i.fab] whose class list contains a key of the
    icon map gets as text the emoji of the first such key in the order of
    the map; the selected elements without such a key, and the elements
    that are not selected, stay as they were. *)
Theorem C7_emoji_fallback contents m doc :
  hasFontAwesome contents = false -> emoji_fallback contents m doc.
Proof.
  intros H. unfold emoji_fallback.
  eexists _, _. split; [by apply checkFontAwesome_not_loaded|].
  cbv zeta.
  cbn [isEmojiModeActive bodyClassList elements].
  split; [reflexivity|]. split.
  { unfold classList_add.
    destruct (contains (bodyClassList doc) "icon-fallback-active") eqn:E.
    - unfold contains in E. apply existsb_exists in E as (x & Hx & Heq).
      apply String.eqb_eq in Heq. by subst.
    - apply in_or_app. right. by left. }
  split; [apply length_map|].
  intros i e He. rewrite list_lookup_fmap, He. cbn [fmap option_fmap option_map].
  split; [|split].
  - intros Hicon pre key emoji post Hmap Hkey Hpre. rewrite Hicon.
    unfold setupIconFallback. cbn [iconMap].
    rewrite Hmap, (first_match_first _ _ _ _ _ Hkey Hpre).
    eexists. split; [reflexivity|]. by repeat split.
  - intros Hicon Hno. rewrite Hicon. unfold setupIconFallback. cbn [iconMap].
    by rewrite (first_match_none _ _ Hno).
  - intros Hicon. by rewrite Hicon.
Qed.

Lemma C7_sample_page_witness :
  emoji_fallback ["none"; "none"; "none"] sample_manager sample_document.
Proof.
  apply (C7_emoji_fallback ["none"; "none"; "none"] sample_manager sample_document).
  reflexivity.
Defined.

(** On the sample page, the home icon gets the house, the icon without
    a key of the map and the [span] stay as they were. *)
Example sample_page_after_fallback :
  exists m' doc',
    checkFontAwesome ["none"; "none"; "none"] sample_manager sample_document = Done m' doc' /\
    map textContent (elements doc') = ["🏠"; EmptyString; "Home"] /\
    bodyClassList doc' = ["theme-classic"; "icon-fallback-active"].
Proof. eexists _, _. split; [reflexivity|]. by split. Qed.

End IconManagerFacts.

Section MemoryCacheFacts.
Import PerformanceOptimizer.
Context {Data : Type} (JSON_stringify : Data -> string).

Local Abbreviation size := (calculateObjectSize JSON_stringify).

Lemma size_nonneg (d : Data) : 0 <= size d.
Proof. unfold calculateObjectSize. lia. Qed.

(** An item that is larger than the budget is refused and nothing
    changes. *)
Lemma cacheInMemory_too_large key (data : Data) st :
  size data > maxMemoryCacheSize st ->
  cacheInMemory JSON_stringify key data st = (false, st).
Proof.
  intros H. unfold cacheInMemory.
  destruct (Z.gtb_spec (size data) (maxMemoryCacheSize st)); [reflexivity | lia].
Qed.

(** An item that fits beside the recorded size is inserted without an
    eviction. *)
Lemma cacheInMemory_room key (data : Data) st :
  memoryCacheSize st + size data <= maxMemoryCacheSize st ->
  0 <= memoryCacheSize st ->
  cacheInMemory JSON_stringify key data st =
    (true, {| memoryCache := map_set key data (memoryCache st);
              memoryCacheSize := memoryCacheSize st + size data;
              maxMemoryCacheSize := maxMemoryCacheSize st |}).
Proof.
  intros Hroom Hpos. unfold cacheInMemory.
  destruct (Z.gtb_spec (size data) (maxMemoryCacheSize st)); [lia|].
  assert (Hfree : free_space JSON_stringify (size data) (maxMemoryCacheSize st)
                    (memoryCache st) (memoryCacheSize st)
                  = (memoryCache st, memoryCacheSize st)).
  { destruct (memoryCache st) as [|[k d] rest]; cbn [free_space];
      destruct (Z.gtb_spec (memoryCacheSize st + size data) (maxMemoryCacheSize st));
      try lia; reflexivity. }
  by rewrite Hfree.
Qed.

(** Writing a key a second time adds the new size to the recorded size
    and does not take the old size away; once the entry is evicted, the
    difference stays recorded for an empty map, and the next insertion
    takes the recorded size above the budget. *)
Lemma overwrite_then_insert k1 k2 (d1 d2 d3 : Data) :
  JsString.truthy k1 = true -> k1 <> k2 ->
  size d1 + size d2 <= 50 * 1024 * 1024 ->
  size d3 <= 50 * 1024 * 1024 ->
  50 * 1024 * 1024 < size d1 + size d3 ->
  cacheAll JSON_stringify [(k1, d1); (k1, d2); (k2, d3)] setupMemoryCache =
    {| memoryCache := [(k2, d3)];
       memoryCacheSize := size d1 + size d3;
       maxMemoryCacheSize := 50 * 1024 * 1024 |}.
Proof.
  intros Hk Hne H12 H3 H13.
  pose proof (size_nonneg d1). pose proof (size_nonneg d2). pose proof (size_nonneg d3).
  unfold cacheAll. cbn [fold_left fst snd].
  rewrite (cacheInMemory_room k1 d1 setupMemoryCache)
    by (cbn [memoryCacheSize maxMemoryCacheSize setupMemoryCache]; lia).
  cbn [snd].
  rewrite (cacheInMemory_room k1 d2)
    by (cbn [memoryCacheSize maxMemoryCacheSize setupMemoryCache]; lia).
  cbn [snd memoryCache memoryCacheSize maxMemoryCacheSize setupMemoryCache map_set].
  rewrite String.eqb_refl.
  unfold cacheInMemory. cbn [memoryCache memoryCacheSize maxMemoryCacheSize].
  destruct (Z.gtb_spec (size d3) (50 * 1024 * 1024)); [lia|].
  cbn [free_space]. rewrite Hk.
  destruct (Z.gtb_spec (0 + size d1 + size d2 + size d3) (50 * 1024 * 1024)); [|lia].
  destruct (Z.gtb_spec (0 + size d1 + size d2 - size d2 + size d3) (50 * 1024 * 1024)); [|lia].
  cbn [snd map_set]. f_equal. lia.
Qed.

(** An entry under a falsy key at the head of the map stops the
    eviction loop: the next item is inserted although there is no room. *)
Lemma falsy_first_key k2 (d1 d2 : Data) :
  EmptyString <> k2 ->
  size d1 <= 50 * 1024 * 1024 ->
  size d2 <= 50 * 1024 * 1024 ->
  50 * 1024 * 1024 < size d1 + size d2 ->
  cacheAll JSON_stringify [(EmptyString, d1); (k2, d2)] setupMemoryCache =
    {| memoryCache := [(EmptyString, d1); (k2, d2)];
       memoryCacheSize := size d1 + size d2;
       maxMemoryCacheSize := 50 * 1024 * 1024 |}.
Proof.
  intros Hne H1 H2 H12.
  pose proof (size_nonneg d1). pose proof (size_nonneg d2).
  unfold cacheAll. cbn [fold_left fst snd].
  rewrite (cacheInMemory_room EmptyString d1 setupMemoryCache)
    by (cbn [memoryCacheSize maxMemoryCacheSize setupMemoryCache]; lia).
  cbn [snd memoryCache memoryCacheSize maxMemoryCacheSize setupMemoryCache map_set].
  unfold cacheInMemory. cbn [memoryCache memoryCacheSize maxMemoryCacheSize].
  destruct (Z.gtb_spec (size d2) (50 * 1024 * 1024)); [lia|].
  cbn [free_space JsString.truthy].
  destruct (Z.gtb_spec (0 + size d1 + size d2) (50 * 1024 * 1024)); [|lia].
  cbn [snd map_set].
  destruct (String.eqb_spec EmptyString k2); [contradiction|].
  f_equal; lia.
Qed.

(** The eviction loop on a map whose keys are truthy and whose recorded
    size is exact: it stops with room for the item or with an empty map,
    and the recorded size stays exact. *)
Lemma free_space_accounted sz max : forall entries recorded,
  recorded = total_size JSON_stringify entries ->
  Forall (fun e => JsString.truthy (fst e) = true) entries ->
  exists evicted rest,
    free_space JSON_stringify sz max entries recorded
      = (rest, total_size JSON_stringify rest) /\
    entries = (evicted ++ rest)%list /\
    (total_size JSON_stringify rest + sz <= max \/ rest = []).
Proof.
  induction entries as [|[k d] entries IH]; intros recorded Hrec Hkeys.
  - exists [], []. subst recorded. cbn [free_space total_size fold_right].
    destruct (0 + sz >? max); (split; [reflexivity|]); split; auto.
  - cbn [free_space]. destruct (Z.gtb_spec (recorded + sz) max) as [Hgt|Hle].
    + apply Forall_cons in Hkeys as [Hk Hkeys]. cbn [fst] in Hk. rewrite Hk.
      destruct (IH (recorded - size d)) as (evicted & rest & Heq & Happ & Hroom);
        [subst recorded; cbn [total_size fold_right snd]; unfold total_size; lia | done |].
      exists ((k, d) :: evicted), rest. rewrite Heq, Happ. by repeat split.
    + exists [], ((k, d) :: entries). subst recorded. repeat split. by left.
Qed.

Lemma map_get_app_None key (pre rest : list (string * Data)) :
  map_get key (pre ++ rest) = None -> map_get key rest = None.
Proof.
  induction pre as [|[k d] pre IH]; [done|].
  cbn [app map_get]. destruct (String.eqb k key); [discriminate | exact IH].
Qed.

Lemma map_set_fresh key (data : Data) entries :
  map_get key entries = None -> map_set key data entries = (entries ++ [(key, data)])%list.
Proof.
  induction entries as [|[k d] entries IH]; [reflexivity|].
  cbn [map_get map_set app]. destruct (String.eqb k key); [discriminate|].
  intros H. by rewrite IH.
Qed.

Lemma total_size_app (l1 l2 : list (string * Data)) :
  total_size JSON_stringify (l1 ++ l2) =
    total_size JSON_stringify l1 + total_size JSON_stringify l2.
Proof.
  unfold total_size. induction l1 as [|e l1 IH]; cbn [app fold_right]; [lia|].
  rewrite IH. lia.
Qed.

(** Where the budget does hold: a cache that is well accounted stays so,
    and within its budget, when the key written is truthy and new. *)
Lemma cacheInMemory_well_accounted key (data : Data) st :
  well_accounted JSON_stringify st ->
  JsString.truthy key = true ->
  getFromMemoryCache key st = None ->
  well_accounted JSON_stringify (cacheInMemory JSON_stringify key data st).2.
Proof.
  intros (Hacc & Hbound & Hkeys) Hkey Hnew. unfold cacheInMemory.
  destruct (Z.gtb_spec (size data) (maxMemoryCacheSize st)) as [Hbig|Hfit];
    [by repeat split|].
  destruct (free_space_accounted (size data) (maxMemoryCacheSize st)
              (memoryCache st) (memoryCacheSize st) Hacc Hkeys)
    as (evicted & rest & Heq & Happ & Hroom).
  rewrite Heq. cbn [snd]. unfold well_accounted, held_size.
  cbn [memoryCache memoryCacheSize maxMemoryCacheSize].
  unfold getFromMemoryCache in Hnew. rewrite Happ in Hnew.
  apply map_get_app_None in Hnew. rewrite (map_set_fresh _ _ _ Hnew), total_size_app.
  split; [cbn [total_size fold_right snd]; lia|]. split.
  - destruct Hroom as [Hroom| ->]; [lia|]. cbn [total_size fold_right]. lia.
  - rewrite Happ in Hkeys. apply Forall_app in Hkeys as [_ Hrest].
    apply Forall_app. split; [done|]. by constructor.
Qed.

End MemoryCacheFacts.

Section LettersFacts.
Import PerformanceOptimizer.

Lemma length_append (s1 s2 : string) :
  String.length (s1 ++ s2) = (String.length s1 + String.length s2)%nat.
Proof.
  induction s1 as [|c s1 IH]; [reflexivity|].
  change (S (String.length (s1 ++ s2)) = S (String.length s1 + String.length s2)).
  by rewrite IH.
Qed.

Lemma length_letters n : String.length (letters n) = N.to_nat n.
Proof.
  unfold letters. induction n as [|n IH] using N.peano_ind; [reflexivity|].
  rewrite N.iter_succ, N2Nat.inj_succ. cbn [String.length]. by rewrite IH.
Qed.

(** The estimate for a string of [n] letters: two bytes for each
    character of its JSON text, which has the two quotes. *)
Lemma size_letters n :
  calculateObjectSize stringify_letters (letters n) = 2 * Z.of_N n + 4.
Proof.
  unfold calculateObjectSize, stringify_letters.
  rewrite !length_append, length_letters.
  change (String.length dq) with 1%nat.
  rewrite !Nat2Z.inj_add, N_nat_Z. lia.
Qed.

(** C10 (the code at the failing input). Three calls of [cacheInMemory]
    on a new cache, with the key [a] written twice (strings of 15,000,000
    and of 10,000,000 letters) and then the key [b] (20,000,000 letters):
    the recorded size ends at 70,000,008 bytes, above the budget of
    52,428,800, while the map holds the last entry alone. And two calls
    with strings of 15,000,000 letters, the first under the empty key:
    nothing is evicted, and the map holds 60,000,008 bytes. *)
Theorem C10_recorded_size_exceeds_budget :
  (let st := cacheAll stringify_letters
               [ ("a", letters 15000000); ("a", letters 10000000); ("b", letters 20000000) ]
               setupMemoryCache in
   memoryCache st = [("b", letters 20000000)] /\
   memoryCacheSize st = 70000008 /\
   maxMemoryCacheSize st = 52428800 /\
   memoryCacheSize st > maxMemoryCacheSize st) /\
  (let st := cacheAll stringify_letters
               [ (EmptyString, letters 15000000); ("b", letters 15000000) ]
               setupMemoryCache in
   memoryCache st = [(EmptyString, letters 15000000); ("b", letters 15000000)] /\
   memoryCacheSize st = 60000008 /\
   held_size stringify_letters st = 60000008 /\
   held_size stringify_letters st > maxMemoryCacheSize st).
Proof.
  cbv zeta. split.
  - rewrite overwrite_then_insert;
      rewrite ?size_letters; try (reflexivity || discriminate || lia).
    cbn [memoryCache memoryCacheSize maxMemoryCacheSize].
    repeat split; lia.
  - rewrite falsy_first_key;
      rewrite ?size_letters; try (reflexivity || discriminate || lia).
    unfold held_size, total_size.
    cbn [memoryCache memoryCacheSize maxMemoryCacheSize fold_right snd].
    rewrite ?size_letters. repeat split; lia.
Qed.

End LettersFacts.

Section ResourceQueueFacts.
Import PerformanceOptimizer.

Lemma insert_perm x queue : Permutation (x :: queue) (insert x queue).
Proof.
  induction queue as [|y rest IH]; [reflexivity|].
  cbn [insert]. destruct (priority y <=? priority x); [reflexivity|].
  rewrite perm_swap. by constructor.
Qed.

Lemma sort_perm queue : Permutation queue (sort queue).
Proof.
  induction queue as [|x rest IH]; [reflexivity|].
  cbn [sort]. rewrite <- insert_perm. by constructor.
Qed.

Lemma insert_descending x queue : descending queue -> descending (insert x queue).
Proof.
  unfold descending. induction queue as [|y rest IH]; intros Hs.
  - repeat constructor.
  - cbn [insert]. destruct (Z.leb_spec (priority y) (priority x)).
    + constructor; [exact Hs | by constructor].
    + apply Sorted_inv in Hs as [Hrest Hhd]. constructor; [by apply IH|].
      destruct rest as [|z rest]; cbn [insert].
      * constructor. lia.
      * apply HdRel_inv in Hhd.
        destruct (priority z <=? priority x); constructor; lia.
Qed.

Lemma sort_descending queue : descending (sort queue).
Proof.
  induction queue as [|x rest IH]; [constructor|].
  cbn [sort]. by apply insert_descending.
Qed.

Lemma descending_head x queue :
  descending (x :: queue) -> Forall (fun y => priority y <= priority x) queue.
Proof.
  unfold descending. intros Hs.
  apply Sorted_StronglySorted in Hs; [by apply StronglySorted_inv in Hs as [_ H]|].
  intros a b c Hab Hbc. lia.
Qed.

Lemma insert_head x queue :
  Forall (fun y => priority y <= priority x) queue -> insert x queue = x :: queue.
Proof.
  intros H. destruct queue as [|y rest]; [reflexivity|].
  apply Forall_inv in H. cbn [insert].
  destruct (Z.leb_spec (priority y) (priority x)); [reflexivity | lia].
Qed.

(** A queue that is sorted is left as it is by the sort. *)
Lemma sort_sorted queue : descending queue -> sort queue = queue.
Proof.
  induction queue as [|x rest IH]; intros Hs; [reflexivity|].
  cbn [sort]. rewrite IH by (by apply Sorted_inv in Hs as [? _]).
  by apply insert_head, descending_head.
Qed.

Lemma filter_none {A} (f : A -> bool) l :
  (forall x, In x l -> f x = false) -> List.filter f l = [].
Proof.
  induction l as [|a l IH]; intros H; [reflexivity|].
  cbn [List.filter]. rewrite (H a) by (by left).
  apply IH. intros x Hx. apply H. by right.
Qed.

(** Where a new item lands in a sorted queue: behind the items whose
    priority is at least its own, before the items of lower priority. *)
Lemma queueResourceLoad_sorted u p queue :
  descending queue ->
  queueResourceLoad u p queue =
    (List.filter (fun i => p <=? priority i) queue
     ++ {| url := u; priority := p |}
     :: List.filter (fun i => priority i <? p) queue)%list.
Proof.
  unfold queueResourceLoad. set (x := {| url := u; priority := p |}).
  induction queue as [|y rest IH]; intros Hs; [reflexivity|].
  pose proof (descending_head _ _ Hs) as Hall.
  assert (Hrest : descending rest) by (by apply Sorted_inv in Hs as [? _]).
  cbn [app sort List.filter]. rewrite (IH Hrest).
  destruct (Z.leb_spec p (priority y)) as [Hle|Hlt].
  - destruct (Z.ltb_spec (priority y) p); [lia|].
    apply insert_head. apply Forall_app. split.
    + apply List.Forall_forall. intros i Hi. apply filter_In in Hi as [Hi _].
      by apply (proj1 (List.Forall_forall _ _) Hall).
    + constructor; [exact Hle|].
      apply List.Forall_forall. intros i Hi. apply filter_In in Hi as [Hi _].
      by apply (proj1 (List.Forall_forall _ _) Hall).
  - destruct (Z.ltb_spec (priority y) p); [|lia].
    assert (Hnone : List.filter (fun i => p <=? priority i) rest = []).
    { apply filter_none. intros i Hi.
      pose proof (proj1 (List.Forall_forall _ _) Hall i Hi) as Hy. cbn in Hy.
      apply Z.leb_gt. lia. }
    assert (Hall' : List.filter (fun i => priority i <? p) rest = rest).
    { apply forallb_filter_id. apply forallb_forall. intros i Hi.
      pose proof (proj1 (List.Forall_forall _ _) Hall i Hi) as Hy. cbn in Hy.
      apply Z.ltb_lt. lia. }
    rewrite Hnone, Hall'. cbn [app insert].
    destruct (Z.leb_spec (priority x) (priority y)) as [Hxy|_]; [cbn in Hxy; lia|].
    f_equal. by apply insert_head.
Qed.

Lemma start_loads_spec limit : forall queue processing,
  start_loads limit queue processing =
    ((processing ++ map url (firstn (limit - length processing) queue))%list,
     skipn (limit - length processing) queue).
Proof.
  induction queue as [|item rest IH]; intros processing.
  - cbn [start_loads]. by rewrite firstn_nil, skipn_nil, app_nil_r.
  - cbn [start_loads]. destruct (Nat.ltb_spec (length processing) limit) as [Hlt|Hge].
    + rewrite IH, length_app. cbn [length].
      replace (limit - length processing)%nat
        with (S (limit - (length processing + 1)))%nat by lia.
      cbn [firstn skipn map]. by rewrite <- app_assoc.
    + replace (limit - length processing)%nat with 0%nat by lia.
      cbn [firstn skipn map]. by rewrite app_nil_r.
Qed.

(** C8 (counterexample). The queue is ordered by priority: a load queued
    with priority 5 overtakes one queued before it with priority 0. And
    the number of loads started together is bounded: of seven queued
    loads, one call of [processResourceQueue] starts six and leaves the
    seventh for the next call. *)
Lemma C8_queue_has_priority_and_bound :
  queueResourceLoad "/api/now" 5 [low] = [ {| url := "/api/now"; priority := 5 |}; low ] /\
  queueResourceLoad "/api/now" 5 [low] <> ([low] ++ [ {| url := "/api/now"; priority := 5 |} ])%list /\
  processResourceQueue true seven =
    (["/a"; "/b"; "/c"; "/d"; "/e"; "/f"], [ {| url := "/g"; priority := 0 |} ], true) /\
  (processResourceQueue true seven).1.1 <> map url seven.
Proof. repeat split; (reflexivity || discriminate). Qed.

(** C8 (amended). The loads queued with [queueResourceLoad] form a
    priority queue: the queue is kept sorted by descending priority, a
    new item going behind the queued items of the same or a higher
    priority; and one call of [processResourceQueue] starts the loads of
    the first 6 items of the queue when online, of the first 2 when
    offline, and leaves the others queued for a call that it schedules
    once these loads have settled. *)
Theorem C8_resource_queue :
  (forall u p queue,
     descending (queueResourceLoad u p queue) /\
     Permutation (queue ++ [ {| url := u; priority := p |} ]) (queueResourceLoad u p queue)) /\
  (forall u p queue,
     descending queue ->
     queueResourceLoad u p queue =
       (List.filter (fun i => p <=? priority i) queue
        ++ {| url := u; priority := p |}
        :: List.filter (fun i => priority i <? p) queue)%list) /\
  (forall (isOnline : bool) queue,
     let limit := if isOnline then 6%nat else 2%nat in
     processResourceQueue isOnline queue =
       (map url (firstn limit queue), skipn limit queue,
        (0 <? length queue)%nat && (limit <? length queue)%nat) /\
     (length (processResourceQueue isOnline queue).1.1 <= limit)%nat).
Proof.
  split; [|split].
  - intros u p queue. split; [apply sort_descending | apply sort_perm].
  - apply queueResourceLoad_sorted.
  - intros isOnline queue limit. unfold processResourceQueue.
    rewrite start_loads_spec. cbn [length app]. rewrite Nat.sub_0_r.
    change (maxConcurrent isOnline) with limit.
    cbn [fst snd]. rewrite length_map, length_firstn, length_skipn.
    split; [|lia].
    f_equal.
    assert (0 < limit)%nat by (subst limit; destruct isOnline; lia).
    destruct (Nat.ltb_spec 0 (length queue)), (Nat.ltb_spec limit (length queue)),
      (Nat.ltb_spec 0 (Init.Nat.min limit (length queue))),
      (Nat.ltb_spec 0 (length queue - limit)); cbn; lia || reflexivity.
Qed.

Lemma C8_sorted_queue_witness :
  queueResourceLoad "/api/now" 0 [low] = [ low; {| url := "/api/now"; priority := 0 |} ].
Proof.
  rewrite (proj1 (proj2 C8_resource_queue) "/api/now" 0 [low]); [reflexivity|].
  repeat constructor.
Defined.

End ResourceQueueFacts.

(* ===================================================================== *)
(** ** Further properties of the service worker *)
(* ===================================================================== *)

Section ServiceWorkerMore.
Import JsString ServiceWorker ServiceWorkerMaintenance.

Lemma includes_of_endsWith sub suf : forall u,
  includes sub suf = true -> endsWith suf u = true -> includes sub u = true.
Proof.
  induction u as [|c u IH]; intros Hsub Hend.
  - cbn [endsWith] in Hend. rewrite orb_false_r in Hend.
    apply String.eqb_eq in Hend. by subst.
  - cbn [endsWith] in Hend. apply orb_true_iff in Hend as [Heq|Hend].
    + apply String.eqb_eq in Heq. by subst.
    + apply includes_cons. by apply IH.
Qed.

Lemma includes_trans a b : forall u,
  includes a b = true -> includes b u = true -> includes a u = true.
Proof.
  induction u as [|c u IH]; intros Hab Hbu.
  - cbn [includes] in Hbu. rewrite orb_false_r in Hbu.
    by apply (includes_mono a b EmptyString).
  - cbn [includes] in Hbu. apply orb_true_iff in Hbu as [Hpre|Hin].
    + by apply (includes_mono a b).
    + apply includes_cons. by apply IH.
Qed.

Lemma isStaticAsset_script request :
  includes ".js" (url request) = true -> isStaticAsset request = true.
Proof. intros H. unfold isStaticAsset. rewrite H. apply orb_true_r. Qed.

Lemma isStaticAsset_style request :
  includes ".css" (url request) = true -> isStaticAsset request = true.
Proof. intros H. unfold isStaticAsset. rewrite H. by rewrite orb_true_r. Qed.

Lemma starts_slash_http p u :
  startsWith "http" u = true -> startsWith (String "/" p) u = false.
Proof.
  unfold startsWith. destruct u as [|c u]; [done|]. cbn [String.prefix].
  destruct (ascii_dec "h" c) as [<-|]; [|done]. intros _.
  by destruct (ascii_dec "/" "h").
Qed.

(** X1. Every GET request for a URL that starts with [http://] or
    [https://] is answered by [handleStaticAsset], whatever its
    destination and whatever the rest of the URL is. *)
Theorem X1_every_http_request_is_static request :
  startsWith "http://" (url request) = true \/
  startsWith "https://" (url request) = true ->
  method request = "GET" ->
  forall w, onFetch request w =
    (RespondWith (handleStaticAsset request w).1, (handleStaticAsset request w).2).
Proof.
  intros Hurl Hget w.
  by rewrite (onFetch_route _ _ _ (route_http_url _ Hurl Hget)).
Qed.

Lemma X1_image_request_witness :
  onFetch image_request (empty_world online) =
    (RespondWith (handleStaticAsset image_request (empty_world online)).1,
     (handleStaticAsset image_request (empty_world online)).2).
Proof.
  apply (X1_every_http_request_is_static image_request); [right|]; reflexivity.
Defined.

(** X2. On a URL that starts with [http], the patterns
    [/^\/api\//] and [/^\/static\//] never match, so [isDynamicRequest]
    holds exactly for the URLs that end in [.json], [.js] or [.css]; and
    the listener never chooses [handleDynamicRequest] nor
    [handleApiRequest], for any request: what they test for is already
    taken by [isStaticAsset]. *)
Theorem X2_dynamic_and_api_handlers_are_never_chosen :
  (forall request,
     startsWith "http" (url request) = true ->
     isDynamicRequest request =
       endsWith ".json" (url request) || endsWith ".js" (url request)
       || endsWith ".css" (url request)) /\
  (forall request, route request <> Some Dynamic /\ route request <> Some Api).
Proof.
  assert (Hdyn : forall request,
             startsWith "http" (url request) = true ->
             isDynamicRequest request =
               endsWith ".json" (url request) || endsWith ".js" (url request)
               || endsWith ".css" (url request)).
  { intros request Hh. unfold isDynamicRequest.
    cbn [existsb DYNAMIC_CACHE_PATTERNS test].
    rewrite !(starts_slash_http _ _ Hh). cbn [orb]. by rewrite orb_false_r, !orb_assoc. }
  split; [exact Hdyn|].
  intros request. unfold route.
  destruct (startsWith "http" (url request)) eqn:Hh; cbn [negb]; [|done].
  destruct (String.eqb (method request) "GET"); cbn [negb]; [|done].
  destruct (isStaticAsset request) eqn:Hs; [done|].
  destruct (isImageRequest request); [done|].
  assert (Hnd : isDynamicRequest request = false).
  { rewrite (Hdyn _ Hh).
    destruct (endsWith ".json" (url request)) eqn:E1.
    { rewrite (isStaticAsset_script request) in Hs; [done|].
      by apply (includes_of_endsWith ".js" ".json"). }
    destruct (endsWith ".js" (url request)) eqn:E2.
    { rewrite (isStaticAsset_script request) in Hs; [done|].
      by apply (includes_of_endsWith ".js" ".js"). }
    destruct (endsWith ".css" (url request)) eqn:E3; [|done].
    rewrite (isStaticAsset_style request) in Hs; [done|].
    by apply (includes_of_endsWith ".css" ".css"). }
  rewrite Hnd.
  assert (Hna : isApiRequest request = false).
  { unfold isApiRequest.
    destruct (includes "/api/" (url request)) eqn:E1.
    { rewrite (isStaticAsset_slash request) in Hs; [done|].
      by apply (includes_trans "/" "/api/"). }
    destruct (includes ".json" (url request)) eqn:E2; [|done].
    rewrite (isStaticAsset_script request) in Hs; [done|].
    by apply (includes_trans ".js" ".json"). }
  by rewrite Hna.
Qed.

Lemma X2_style_url_witness :
  isDynamicRequest script_request = true.
Proof.
  rewrite (proj1 X2_dynamic_and_api_handlers_are_never_chosen script_request); reflexivity.
Defined.

(** X3. With the network down, [handleStaticAsset] serves whatever the
    static cache holds for the URL, however old it is; without an entry
    a document gets the offline page and every other request gets the
    network error. No cache is written. *)
Theorem X3_static_handler_offline request w :
  outcome (network w request) = None ->
  (handleStaticAsset request w).1 =
    match cache_of w STATIC_CACHE !! url request with
    | Some c => Ok c
    | None =>
        if String.eqb (destination request) "document"
        then Ok createOfflinePage
        else Throw (NetworkError (url request))
    end /\
  caches (handleStaticAsset request w).2 = caches w.
Proof.
  intros Hnet. split; [|apply (handler_caches StaticAsset)].
  rewrite handleStaticAsset_eq. cbv zeta. unfold fresh_entry, static_fallback. rewrite Hnet.
  destruct (cache_of w STATIC_CACHE !! url request) as [c|]; [|reflexivity].
  by destruct (expired_at (clock w) c (CACHE_EXPIRY static)).
Qed.

Lemma X3_offline_script_witness :
  (handleStaticAsset script_request (empty_world offline)).1 =
    Throw (NetworkError (url script_request)) /\
  caches (handleStaticAsset script_request (empty_world offline)).2 = ∅.
Proof. apply (X3_static_handler_offline script_request (empty_world offline)). reflexivity. Defined.

(** X4. [handleImageRequest] never rejects: in every world it resolves
    with a response. [handleApiRequest] resolves exactly when the network
    gave a response without [ok], or when the dynamic cache holds no
    entry that is still fresh once the attempt is over; with such an
    entry its promise rejects. *)
Theorem X4_image_handler_always_resolves request w :
  (exists r, (handleImageRequest request w).1 = Ok r) /\
  ((exists r, (handleApiRequest request w).1 = Ok r) <->
   (exists r, outcome (network w request) = Some r /\ ok r = false) \/
   fresh_entry (fetched request w) DYNAMIC_CACHE (CACHE_EXPIRY api) request = None).
Proof.
  split.
  - rewrite handleImageRequest_eq. cbv zeta.
    destruct (fresh_entry w IMAGE_CACHE (CACHE_EXPIRY images) request); [by eexists|].
    destruct (outcome (network w request)) as [r|]; [destruct (ok r)|]; by eexists.
  - rewrite handleApiRequest_eq. cbv zeta.
    destruct (outcome (network w request)) as [r|]; [destruct (ok r) eqn:Hok|].
    + destruct (fresh_entry (fetched request w) DYNAMIC_CACHE (CACHE_EXPIRY api) request).
      * split; [by intros [? ?]|]. intros [(r' & [= <-] & Hno)|?]; [congruence | done].
      * split; [by right | by eexists].
    + split; [left; by exists r | by eexists].
    + destruct (fresh_entry (fetched request w) DYNAMIC_CACHE (CACHE_EXPIRY api) request).
      * split; [by intros [? ?]|]. intros [(r' & ? & _)|?]; done.
      * split; [by right | by eexists].
Qed.

(** X5. [handleApiRequest] never answers with the copy of a cached
    entry. When the network request fails and the dynamic cache holds an
    entry that is not older than five minutes once the attempt has
    failed, the handler clones the entry and calls [headers.set] on the
    clone, whose headers are immutable: the promise rejects with the
    [TypeError], after the network attempt and the lookup, and the caches
    are as before. *)
Theorem X5_api_handler_rejects_on_a_fresh_entry request w c :
  outcome (network w request) = None ->
  cache_of w DYNAMIC_CACHE !! url request = Some c ->
  expired_at (clock w + latency (network w request)) c (CACHE_EXPIRY api) = false ->
  handleApiRequest request w =
    (Throw TypeError, looked_up DYNAMIC_CACHE request (fetched request w)) /\
  caches (handleApiRequest request w).2 = caches w.
Proof.
  intros Hnet Hc Hfresh. split; [|apply (handler_caches Api)].
  rewrite handleApiRequest_eq, Hnet. cbv zeta. unfold fresh_entry.
  change (cache_of (fetched request w) DYNAMIC_CACHE) with (cache_of w DYNAMIC_CACHE).
  change (clock (fetched request w)) with (clock w + latency (network w request)).
  by rewrite Hc, Hfresh.
Qed.

Lemma X5_recent_entry_witness :
  let w := set_caches {[ DYNAMIC_CACHE := {[ url api_request := stamped 1699999990000 sample_ok ]} ]}
             (empty_world offline) in
  handleApiRequest api_request w =
    (Throw TypeError, looked_up DYNAMIC_CACHE api_request (fetched api_request w)) /\
  caches (handleApiRequest api_request w).2 = caches w.
Proof.
  cbv zeta.
  apply (X5_api_handler_rejects_on_a_fresh_entry api_request _
           (stamped 1699999990000 sample_ok)); reflexivity.
Defined.

(** X6. [handleDynamicRequest] and [handleApiRequest] start with the
    network attempt, and a response without [ok] is returned as it is,
    the cache not being read. A response with [ok] is never returned:
    [addTimestamp] throws on its clone, and the handler goes on in its
    [catch] block as after a failure of the network, with a lookup in the
    dynamic cache. [handleDynamicRequest] then answers with an entry that
    is not expired or rejects with the [TypeError]; [handleApiRequest]
    answers with its 503 or rejects. *)
Theorem X6_dynamic_and_api_handlers_lose_ok_responses request w :
  (exists rest,
     trace (handleDynamicRequest request w).2 =
       (trace w ++ NetFetch (url request) :: rest)%list) /\
  (exists rest,
     trace (handleApiRequest request w).2 =
       (trace w ++ NetFetch (url request) :: rest)%list) /\
  (forall r, outcome (network w request) = Some r -> ok r = false ->
     handleDynamicRequest request w = (Ok r, fetched request w) /\
     handleApiRequest request w = (Ok r, fetched request w)) /\
  (forall r, outcome (network w request) = Some r -> ok r = true ->
     (handleDynamicRequest request w).1 =
       match fresh_entry (fetched request w) DYNAMIC_CACHE (CACHE_EXPIRY dynamic) request with
       | Some c => Ok c
       | None => Throw TypeError
       end /\
     (handleApiRequest request w).1 =
       match fresh_entry (fetched request w) DYNAMIC_CACHE (CACHE_EXPIRY api) request with
       | Some c => Throw TypeError
       | None => Ok (offlineApiResponse (clock w + latency (network w request)))
       end /\
     trace (handleDynamicRequest request w).2 =
       (trace w ++ [NetFetch (url request); CacheMatch DYNAMIC_CACHE (url request)])%list /\
     trace (handleApiRequest request w).2 =
       (trace w ++ [NetFetch (url request); CacheMatch DYNAMIC_CACHE (url request)])%list).
Proof.
  split; [rewrite handleDynamicRequest_trace; by eexists|].
  split; [rewrite handleApiRequest_trace; by eexists|].
  split.
  - intros r Hnet Hok. by rewrite handleDynamicRequest_eq, handleApiRequest_eq, Hnet, Hok.
  - intros r Hnet Hok.
    rewrite handleDynamicRequest_trace, handleApiRequest_trace.
    rewrite handleDynamicRequest_eq, handleApiRequest_eq, Hnet, Hok. cbv zeta.
    split; [|split; [|by split]].
    + by destruct (fresh_entry (fetched request w) DYNAMIC_CACHE (CACHE_EXPIRY dynamic) request).
    + by destruct (fresh_entry (fetched request w) DYNAMIC_CACHE (CACHE_EXPIRY api) request).
Qed.

Lemma X6_api_request_witness :
  (handleApiRequest api_request (empty_world online)).1 =
    Ok (offlineApiResponse 1700000000040) /\
  (handleDynamicRequest api_request (empty_world online)).1 = Throw TypeError.
Proof.
  destruct (X6_dynamic_and_api_handlers_lose_ok_responses api_request (empty_world online))
    as (_ & _ & _ & Hok).
  destruct (Hok sample_ok eq_refl eq_refl) as (Hdyn & Hapi & _).
  split; [exact Hapi | exact Hdyn].
Defined.

(** X7. Expiry is monotone: a response that is expired at one instant is
    expired at every later instant, and a response that is expired under
    one limit is expired under every shorter limit. *)
Theorem X7_expiry_is_monotone now now' response maxAge maxAge' :
  now <= now' -> maxAge' <= maxAge ->
  expired_at now response maxAge = true ->
  expired_at now' response maxAge' = true.
Proof.
  intros Hnow Hage. unfold expired_at.
  destruct (headers response !! TIMESTAMP) as [ts|]; [|done].
  destruct (negb (truthy ts)); [done|].
  destruct (parseInt ts) as [t|]; [|done].
  rewrite !Z.gtb_gt. lia.
Qed.

Lemma X7_stale_entry_witness :
  expired_at 1700000400000 (stamped 1700000000000 sample_ok) (CACHE_EXPIRY api) = true.
Proof.
  apply (X7_expiry_is_monotone 1700000300001 1700000400000 _
           (CACHE_EXPIRY api) (CACHE_EXPIRY api)); [lia | lia | reflexivity].
Defined.

(** X8. A handler writes at most one cache entry: every entry of every
    cache is after the call what it was before, except that the entry of
    the request's URL in the handler's own cache may have become the
    network's response, stamped with the time of its arrival, and only
    when that response has [ok]. No handler deletes an entry, and no
    response without [ok] is stored. *)
Theorem X8_handlers_write_one_stamped_entry s request w name u :
  cache_of (handler s request w).2 name !! u = cache_of w name !! u \/
  (cache_name s = Some name /\ u = url request /\
   exists resp,
     outcome (network w request) = Some resp /\ ok resp = true /\
     cache_of (handler s request w).2 name !! u =
       Some (stamped (clock w + latency (network w request)) resp)).
Proof. left. unfold cache_of. by rewrite handler_caches. Qed.

Lemma cache_of_cleanOldCaches w name :
  is_current name = true -> cache_of (cleanOldCaches w) name = cache_of w name.
Proof.
  intros Hcur. unfold cache_of, cleanOldCaches. cbn [caches set_caches].
  destruct (caches w !! name) as [c|] eqn:Hc.
  - erewrite (proj2 (map_lookup_filter_Some _ _ _ _)); [done|]. by split.
  - rewrite (proj2 (map_lookup_filter_None _ _ _)); [done|]. by left.
Qed.

(** X9. [cleanOldCaches] deletes every cache whose name is not one of
    the three current names and leaves the three current caches as they
    are; running it a second time changes nothing; and no handler answers
    differently after it than before it. *)
Theorem X9_cleanOldCaches_keeps_the_current_caches :
  (forall w name, is_current name = false -> caches (cleanOldCaches w) !! name = None) /\
  (forall w name, is_current name = true ->
     caches (cleanOldCaches w) !! name = caches w !! name) /\
  (forall w, cleanOldCaches (cleanOldCaches w) = cleanOldCaches w) /\
  (forall s request w,
     (handler s request (cleanOldCaches w)).1 = (handler s request w).1).
Proof.
  split; [|split; [|split]].
  - intros w name Hcur. unfold cleanOldCaches. cbn [caches set_caches].
    apply map_lookup_filter_None. right. intros c _ Hp.
    change (is_current name = true) in Hp. congruence.
  - intros w name Hcur. unfold cleanOldCaches. cbn [caches set_caches].
    destruct (caches w !! name) as [c|] eqn:Hc.
    + apply map_lookup_filter_Some. by split.
    + apply map_lookup_filter_None. by left.
  - intros w. unfold cleanOldCaches. cbn [caches set_caches clock network trace].
    unfold set_caches. cbn [caches clock network trace]. f_equal.
    by apply map_filter_filter_r.
  - intros s request w. apply handler_frame; [reflexivity | reflexivity |].
    intros name Hname. apply cache_of_cleanOldCaches.
    destruct s; inversion Hname; reflexivity.
Qed.

Lemma X9_old_cache_witness :
  let w := set_caches {[ "rhelper-v0.9.0" := {[ url api_request := sample_ok ]} ]}
             (empty_world online) in
  caches (cleanOldCaches w) !! "rhelper-v0.9.0" = None.
Proof.
  cbv zeta. apply (proj1 X9_cleanOldCaches_keeps_the_current_caches). reflexivity.
Defined.

End ServiceWorkerMore.

(* ===================================================================== *)
(** ** Further properties of the theme manager *)
(* ===================================================================== *)

Section ThemeManagerMore.
Import ThemeManager.

Ltac each_table_theme H :=
  repeat (destruct H as [<-|H]; [|]); [..|destruct H].

(** X10. For each of the twelve themes of the table, [setTheme] stores
    the name under [preferred-theme], makes it the current theme and
    leaves its class as the one theme class of the body; and a manager
    created later on a page with that storage, whatever classes its body
    has, comes up with that theme current and applied. *)
Theorem X10_table_theme_round_trip themeName st classes :
  In themeName theme_keys ->
  let st' := setTheme themeName st in
  localStorage st' !! "preferred-theme" = Some themeName /\
  currentTheme st' = themeName /\
  applied_themes st' = [themeName] /\
  let st'' := init (localStorage st') classes in
  currentTheme st'' = themeName /\ applied_themes st'' = [themeName].
Proof. apply setTheme_round_trip. Qed.

Lemma X10_ocean_witness :
  let st' := setTheme "ocean" (init ∅ ["page"; "theme-dark"]) in
  localStorage st' !! "preferred-theme" = Some "ocean" /\
  currentTheme st' = "ocean" /\
  applied_themes st' = ["ocean"] /\
  let st'' := init (localStorage st') ["page"] in
  currentTheme st'' = "ocean" /\ applied_themes st'' = ["ocean"].
Proof.
  apply (X10_table_theme_round_trip "ocean" (init ∅ ["page"; "theme-dark"]) ["page"]).
  cbn. tauto.
Defined.

(** X11. [applyTheme] keeps every class of the body that is not the
    class of a table theme, drops the classes of all table themes, and
    adds the class of the theme applied: a class is on the body afterwards
    exactly when it is the new class or was there before and is no theme
    class. *)
Theorem X11_applyTheme_touches_theme_classes_only themeName st c :
  In c (bodyClassList (applyTheme themeName st)) <->
    c = theme_class themeName \/
    (In c (bodyClassList st) /\ ~ In c (map theme_class theme_keys)).
Proof.
  rewrite <- !contains_In. cbn [applyTheme bodyClassList].
  rewrite contains_add, orb_true_iff, contains_remove, andb_true_iff, negb_true_iff.
  rewrite String.eqb_eq, <- not_true_iff_false. reflexivity.
Qed.

(** X12. Without a usable saved theme (no [preferred-theme] in the
    storage, an empty one, or a name that [this.themes] does not know), a
    new manager keeps [classic] as current theme and does nothing to the
    page: the body classes are as they were, so no theme class is added,
    no event is dispatched and the storage is not written. *)
Theorem X12_init_without_saved_theme storage classes :
  storage !! "preferred-theme" = None \/
  storage !! "preferred-theme" = Some EmptyString \/
  (exists saved, storage !! "preferred-theme" = Some saved /\
                 themes_get saved = VUndefined) ->
  let st := init storage classes in
  currentTheme st = "classic" /\ bodyClassList st = classes /\
  dispatched st = [] /\ localStorage st = storage /\
  themeOptions st = map (fun k => (k, String.eqb k "classic")) theme_keys.
Proof.
  intros H. unfold init, loadSavedTheme. cbn [localStorage].
  destruct H as [->|[->|(saved & -> & Hs)]]; [done | done |].
  rewrite Hs. cbn [truthy]. by rewrite andb_false_r.
Qed.

Lemma X12_first_visit_witness :
  let st := init ∅ ["page"] in
  currentTheme st = "classic" /\ bodyClassList st = ["page"] /\
  dispatched st = [] /\ localStorage st = ∅ /\
  themeOptions st = map (fun k => (k, String.eqb k "classic")) theme_keys.
Proof. apply (X12_init_without_saved_theme ∅ ["page"]). by left. Defined.

(** X13. After a theme of the table is chosen, exactly the option
    button of that theme is marked active among the buttons that
    [createThemeSelector] rendered. *)
Theorem X13_one_active_option themeName storage classes :
  In themeName theme_keys ->
  let st := setTheme themeName (init storage classes) in
  themeOptions st = map (fun k => (k, String.eqb k themeName)) theme_keys /\
  List.filter snd (themeOptions st) = [(themeName, true)].
Proof.
  intros Hin. cbv zeta.
  assert (Ht : truthy (themes_get themeName) = true) by (each_table_theme Hin; reflexivity).
  rewrite setTheme_known by done.
  assert (Hopts : themeOptions
            (showThemeNotification (name_of (themes_get themeName))
               (setItem "preferred-theme" themeName
                  (updateActiveButton themeName
                     (applyTheme themeName
                        (set_currentTheme themeName (init storage classes))))))
          = map (fun k => (k, String.eqb k themeName)) theme_keys).
  { cbn [themeOptions showThemeNotification setItem updateActiveButton applyTheme
         set_currentTheme init createThemeSelector].
    rewrite map_map. reflexivity. }
  rewrite Hopts. split; [reflexivity|].
  each_table_theme Hin; reflexivity.
Qed.

Lemma X13_rose_witness :
  let st := setTheme "rose" (init ∅ []) in
  themeOptions st = map (fun k => (k, String.eqb k "rose")) theme_keys /\
  List.filter snd (themeOptions st) = [("rose", true)].
Proof. apply (X13_one_active_option "rose" ∅ []). cbn. tauto. Defined.

Lemma classList_remove_add tokens token classes :
  contains tokens token = true ->
  classList_remove tokens (classList_add token (classList_remove tokens classes)) =
    classList_remove tokens classes.
Proof.
  intros Htok. unfold classList_add.
  rewrite contains_remove, Htok. cbn [negb]. rewrite andb_false_r.
  unfold classList_remove. rewrite List.filter_app. cbn [List.filter].
  rewrite Htok. cbn [negb]. rewrite app_nil_r.
  induction classes as [|c classes IH]; [reflexivity|].
  cbn [List.filter]. destruct (negb (contains tokens c)) eqn:E; [|exact IH].
  cbn [List.filter]. rewrite E. by rewrite IH.
Qed.

(** X14. The last choice wins: choosing a theme of the table after
    another one leaves the manager and the page as choosing it directly
    would, apart from the [themeChanged] events that were dispatched on
    the way. *)
Theorem X14_last_choice_wins a b st :
  In a theme_keys -> In b theme_keys ->
  let st1 := setTheme b (setTheme a st) in
  let st2 := setTheme b st in
  currentTheme st1 = currentTheme st2 /\
  localStorage st1 = localStorage st2 /\
  bodyClassList st1 = bodyClassList st2 /\
  themeOptions st1 = themeOptions st2 /\
  notification st1 = notification st2 /\
  dispatched st1 = (dispatched st ++ [a; b])%list.
Proof.
  intros Ha Hb. cbv zeta.
  assert (Hta : truthy (themes_get a) = true) by (each_table_theme Ha; reflexivity).
  assert (Htb : truthy (themes_get b) = true) by (each_table_theme Hb; reflexivity).
  rewrite !setTheme_known by done.
  cbn [currentTheme localStorage bodyClassList themeOptions notification dispatched
       showThemeNotification setItem updateActiveButton applyTheme set_currentTheme].
  split; [reflexivity|]. split; [apply insert_insert_eq|]. split.
  { f_equal. apply classList_remove_add. apply contains_In, in_map, Ha. }
  split; [|split; [reflexivity | by rewrite <- app_assoc]].
  rewrite map_map. reflexivity.
Qed.

Lemma X14_dark_then_forest_witness :
  let st1 := setTheme "forest" (setTheme "dark" (init ∅ [])) in
  let st2 := setTheme "forest" (init ∅ []) in
  currentTheme st1 = currentTheme st2 /\
  localStorage st1 = localStorage st2 /\
  bodyClassList st1 = bodyClassList st2 /\
  themeOptions st1 = themeOptions st2 /\
  notification st1 = notification st2 /\
  dispatched st1 = (dispatched (init ∅ []) ++ ["dark"; "forest"])%list.
Proof. apply (X14_last_choice_wins "dark" "forest" (init ∅ [])); cbn; tauto. Defined.

End ThemeManagerMore.

(* ===================================================================== *)
(** ** Further properties of the icon manager *)
(* ===================================================================== *)

Section IconManagerMore.
Import IconManager IconManagerToggle.



Lemma is_icon_setupIconFallback m icon :
  is_icon (setupIconFallback m icon) = is_icon icon.
Proof.
  unfold setupIconFallback. by destruct (first_match (iconMap m) (classList icon)).
Qed.



Lemma first_match_In entries classes emoji :
  first_match entries classes = Some emoji -> In emoji (map snd entries).
Proof.
  induction entries as [|[k v] entries IH]; [done|].
  cbn [first_match map snd]. destruct (contains classes k).
  - intros [= ->]. by left.
  - intros H. right. by apply IH.
Qed.

(** Which emoji of the initial map the regular expression recognises. *)
Lemma initial_emoji_ranges emoji :
  In emoji (map snd initialIconMap) ->
  matches_emoji emoji = negb (existsb (String.eqb emoji) unmatched_emoji).
Proof.
  intros H. cbn [map snd initialIconMap] in H.
  repeat (destruct H as [<-|H]; [vm_compute; reflexivity|]). destruct H.
Qed.

Lemma classList_remove_add_absent token classes :
  ~ In token classes ->
  classList_remove token (classList_add token classes) = classes.
Proof.
  intros Hno. unfold classList_add.
  assert (Hc : contains classes token = false).
  { apply not_true_iff_false. intros Hc. apply Hno.
    unfold contains in Hc. apply existsb_exists in Hc as (x & Hx & Heq).
    apply String.eqb_eq in Heq. by subst. }
  rewrite Hc. unfold classList_remove. rewrite List.filter_app.
  cbn [List.filter]. rewrite String.eqb_refl. cbn [negb]. rewrite app_nil_r.
  clear Hc. induction classes as [|c classes IH]; [reflexivity|].
  cbn [List.filter]. destruct (String.eqb_spec c token) as [->|Hne].
  - exfalso. apply Hno. by left.
  - cbn [negb]. f_equal. apply IH. intros Hin. apply Hno. by right.
Qed.

Lemma not_In_classList_remove token classes :
  ~ In token (classList_remove token classes).
Proof.
  unfold classList_remove. rewrite filter_In. intros [_ H].
  by rewrite String.eqb_refl in H.
Qed.

(** X16. Switching the emoji mode on and off again with the initial icon
    map does not bring the icons back. The body class is gone and the
    elements that are not selected are as before, but a selected icon
    with a key of the map ends with an empty text only when its emoji
    lies in the five ranges of the regular expression; the emoji of
    [fa-brain], [fa-vial] and [fa-info-circle] lie outside and stay, with
    the emoji style. An icon whose text was cleared keeps
    [position: relative]. *)
Theorem X16_toggle_on_and_off m doc :
  isEmojiModeActive m = false ->
  iconMap m = initialIconMap ->
  let on := toggleIconMode m doc in
  let off := toggleIconMode on.1 on.2 in
  isEmojiModeActive on.1 = true /\ isEmojiModeActive off.1 = false /\
  In "icon-fallback-active" (bodyClassList on.2) /\
  ~ In "icon-fallback-active" (bodyClassList off.2) /\
  (~ In "icon-fallback-active" (bodyClassList doc) ->
   bodyClassList off.2 = bodyClassList doc) /\
  (forall (i : nat) e, elements doc !! i = Some e ->
     (is_icon e = false -> elements off.2 !! i = Some e) /\
     (is_icon e = true ->
      forall emoji, first_match initialIconMap (classList e) = Some emoji ->
        elements off.2 !! i =
          Some (if existsb (String.eqb emoji) unmatched_emoji
                then {| tagName := tagName e; classList := classList e;
                        textContent := emoji; style := emoji_style (style e) |}
                else {| tagName := tagName e; classList := classList e;
                        textContent := EmptyString;
                        style := clear_style (emoji_style (style e)) |}))) /\
  (forall s, clear_style (emoji_style s) !! "position" = Some "relative").
Proof.
  intros Hoff Hmap. cbv zeta.
  assert (Hon : toggleIconMode m doc = enableEmojiIcons m doc)
    by (unfold toggleIconMode; by rewrite Hoff).
  rewrite Hon. unfold enableEmojiIcons. cbn [fst snd].
  unfold toggleIconMode. cbn [isEmojiModeActive iconMap fst snd].
  cbn [updateAllIcons showIconNotification bodyClassList elements notifications iconMap].
  split; [reflexivity|]. split; [reflexivity|]. split.
  { unfold classList_add.
    destruct (contains (bodyClassList doc) "icon-fallback-active") eqn:E.
    - unfold contains in E. apply existsb_exists in E as (x & Hx & Heq).
      apply String.eqb_eq in Heq. by subst.
    - apply in_or_app. right. by left. }
  split; [apply not_In_classList_remove|].
  split; [apply classList_remove_add_absent|].
  split.
  - intros i e He. rewrite map_map, list_lookup_fmap, He.
    cbn [fmap option_fmap option_map]. split.
    + intros Hicon. by rewrite Hicon, Hicon.
    + intros Hicon emoji Hfirst. rewrite Hicon, is_icon_setupIconFallback, Hicon.
      unfold setupIconFallback. cbn [iconMap]. rewrite Hmap, Hfirst.
      unfold clearEmoji. cbn [textContent tagName classList style].
      rewrite (initial_emoji_ranges emoji (first_match_In _ _ _ Hfirst)).
      by destruct (existsb (String.eqb emoji) unmatched_emoji).
  - intros s. unfold clear_style, emoji_style.
    rewrite !lookup_delete_ne by done. by rewrite lookup_insert_eq.
Qed.

Lemma X16_sample_page_witness :
  let on := toggleIconMode sample_manager sample_document in
  let off := toggleIconMode on.1 on.2 in
  isEmojiModeActive off.1 = false /\
  bodyClassList off.2 = bodyClassList sample_document.
Proof.
  cbv zeta.
  pose proof (X16_toggle_on_and_off sample_manager sample_document eq_refl eq_refl)
    as (_ & Hoff & _ & _ & Hbody & _).
  split; [exact Hoff|]. apply Hbody.
  cbn. intros [H|[]]. discriminate H.
Defined.

End IconManagerMore.

(* ===================================================================== *)
(** ** Properties of prefetching and of the cache update *)
(* ===================================================================== *)

Section ServiceWorkerBackgroundFacts.
Import JsString ServiceWorker ServiceWorkerBackground.

Lemma cache_of_set_caches cs w name :
  cs !! name = caches w !! name -> cache_of (set_caches cs w) name = cache_of w name.
Proof. intros H. unfold cache_of. cbn [caches set_caches]. by rewrite H. Qed.

(** X17. For a GET request whose URL starts with [http://] or
    [https://], the listener reads and writes the static cache alone:
    what the dynamic and the image cache hold changes neither the answer
    nor the static cache afterwards, and the listener leaves every other
    cache as it was. *)
Theorem X17_listener_works_on_the_static_cache_alone request w cs :
  startsWith "http://" (url request) = true \/
  startsWith "https://" (url request) = true ->
  method request = "GET" ->
  cs !! STATIC_CACHE = caches w !! STATIC_CACHE ->
  (onFetch request (set_caches cs w)).1 = (onFetch request w).1 /\
  cache_of (onFetch request (set_caches cs w)).2 STATIC_CACHE =
    cache_of (onFetch request w).2 STATIC_CACHE /\
  (forall name, name <> STATIC_CACHE ->
     caches (onFetch request w).2 !! name = caches w !! name).
Proof.
  intros Hurl Hget Hcs.
  rewrite !(onFetch_route _ _ _ (route_http_url _ Hurl Hget)). cbn [fst snd].
  split; [|split].
  - f_equal. apply handler_frame; [reflexivity | reflexivity |].
    intros name [= <-]. by apply cache_of_set_caches.
  - unfold cache_of. rewrite !handler_caches. cbn [caches set_caches]. by rewrite Hcs.
  - intros name _. by rewrite handler_caches.
Qed.

Lemma X17_filled_image_cache_witness :
  (onFetch image_request
     (set_caches {[ IMAGE_CACHE := {[ url image_request := stamped 1699999990000 sample_ok ]} ]}
        (empty_world offline))).1 =
  (onFetch image_request (empty_world offline)).1.
Proof.
  apply (X17_listener_works_on_the_static_cache_alone image_request
           (empty_world offline)
           {[ IMAGE_CACHE := {[ url image_request := stamped 1699999990000 sample_ok ]} ]});
    [right; reflexivity | reflexivity | reflexivity].
Defined.

Lemma prefetchUrl_eq u w :
  prefetchUrl u w = (Ok tt, fetched (request_of u) w).
Proof.
  unfold prefetchUrl, try_catch, mbind, M_bind, bind. rewrite run_fetch.
  destruct (outcome (network w (request_of u))) as [r|]; [|reflexivity].
  cbn [content]. destruct (ok r); [|reflexivity].
  by rewrite run_addTimestamp.
Qed.

(** X18. The function that [prefetchUrls] runs on each URL stores
    nothing. It calls [addTimestamp] on the response that [fetch] gave,
    whose headers are immutable: [set] throws, the error is caught and
    logged, and [put] is not reached. So the function never rejects, and
    all it leaves behind is the network attempt: the caches are as
    before. *)
Theorem X18_prefetch_stores_nothing u w :
  (prefetchUrl u w).1 = Ok tt /\
  caches (prefetchUrl u w).2 = caches w /\
  trace (prefetchUrl u w).2 = (trace w ++ [NetFetch u])%list /\
  clock (prefetchUrl u w).2 = clock w + latency (network w (request_of u)).
Proof. rewrite prefetchUrl_eq. by repeat split. Qed.

Lemma updateAsset_ok u w r :
  outcome (network w (request_of u)) = Some r -> ok r = true ->
  updateAsset u w =
    (Ok tt,
     set_caches (<[STATIC_CACHE := <[u := r]> (cache_of w STATIC_CACHE)]> (caches w))
       (set_trace (trace w ++ [NetFetch u; CachePut STATIC_CACHE u])
          (set_clock (clock w + latency (network w (request_of u))) w))).
Proof.
  intros Hnet Hok.
  unfold updateAsset, try_catch, mbind, M_bind, bind. rewrite run_fetch, Hnet.
  cbn [content]. rewrite Hok.
  unfold cache_put, mbind, M_bind, bind, emit, cache_store, fetched, set_caches, set_trace,
    set_clock, cache_of.
  cbn. by rewrite <- app_assoc.
Qed.

(** X19. The function that [updateCaches] runs on each asset stores the
    response as it came, without the timestamp header. Such an entry
    counts as expired at every instant and under every age limit: the
    static handler does not serve it cache-first, it asks the network
    for each request of that URL. *)
Theorem X19_updated_assets_count_as_expired u w r :
  outcome (network w (request_of u)) = Some r -> ok r = true ->
  headers r !! TIMESTAMP = None ->
  let w' := (updateAsset u w).2 in
  (updateAsset u w).1 = Ok tt /\
  cache_of w' STATIC_CACHE !! u = Some r /\
  (forall now maxAge, expired_at now r maxAge = true) /\
  (forall request, url request = u ->
     exists rest,
       trace (handleStaticAsset request w').2 =
         (trace w' ++ [CacheMatch STATIC_CACHE u; NetFetch u] ++ rest)%list).
Proof.
  intros Hnet Hok Hstamp. cbv zeta. rewrite (updateAsset_ok u w r Hnet Hok). cbn [fst snd].
  set (w' := set_caches _ _).
  assert (Hentry : cache_of w' STATIC_CACHE !! u = Some r).
  { unfold w', cache_of at 1. cbn. rewrite lookup_insert_eq. cbn. by rewrite lookup_insert_eq. }
  assert (Hexp : forall now maxAge, expired_at now r maxAge = true).
  { intros now maxAge. unfold expired_at. by rewrite Hstamp. }
  split; [reflexivity|]. split; [exact Hentry|]. split; [exact Hexp|].
  intros request <-. rewrite handleStaticAsset_trace.
  unfold fresh_entry. rewrite Hentry, Hexp. by eexists.
Qed.

Lemma X19_updated_script_witness :
  let w' := (updateAsset (url script_request) (empty_world online)).2 in
  cache_of w' STATIC_CACHE !! url script_request = Some sample_ok /\
  exists rest,
    trace (handleStaticAsset script_request w').2 =
      (trace w' ++ [CacheMatch STATIC_CACHE (url script_request);
                    NetFetch (url script_request)] ++ rest)%list.
Proof.
  cbv zeta.
  pose proof (X19_updated_assets_count_as_expired (url script_request) (empty_world online)
                sample_ok eq_refl eq_refl eq_refl) as (_ & Hentry & _ & Htrace).
  split; [exact Hentry|]. exact (Htrace script_request eq_refl).
Defined.

End ServiceWorkerBackgroundFacts.

(* ===================================================================== *)
(** ** Further properties of the memory cache *)
(* ===================================================================== *)

Section MemoryCacheMore.
Import PerformanceOptimizer.
Context {Data : Type} (JSON_stringify : Data -> string).

Local Abbreviation size := (calculateObjectSize JSON_stringify).
Local Abbreviation total := (total_size JSON_stringify).

Lemma map_get_map_set key (data : Data) entries :
  map_get key (map_set key data entries) = Some data.
Proof.
  induction entries as [|[k d] entries IH]; cbn [map_set map_get].
  - by rewrite String.eqb_refl.
  - destruct (String.eqb k key) eqn:E; cbn [map_get]; by rewrite E.
Qed.

Lemma map_get_map_set_ne key key' (data : Data) entries :
  key' <> key -> map_get key' (map_set key data entries) = map_get key' entries.
Proof.
  intros Hne. induction entries as [|[k d] entries IH]; cbn [map_set map_get].
  - destruct (String.eqb_spec key key'); [congruence | reflexivity].
  - destruct (String.eqb_spec k key) as [->|Hk]; cbn [map_get].
    + destruct (String.eqb_spec key key'); [congruence | reflexivity].
    + by rewrite IH.
Qed.

Lemma map_get_In key (d : Data) entries :
  map_get key entries = Some d -> In (key, d) entries.
Proof.
  induction entries as [|[k d'] entries IH]; [done|]. cbn [map_get].
  destruct (String.eqb_spec k key) as [->|Hk].
  - intros [= ->]. by left.
  - intros H. right. by apply IH.
Qed.

(** The eviction loop takes entries from the front of the map. *)
Lemma free_space_suffix sz max : forall entries recorded,
  exists evicted,
    entries = (evicted ++ (free_space JSON_stringify sz max entries recorded).1)%list.
Proof.
  induction entries as [|[k d] entries IH]; intros recorded.
  - exists []. cbn [free_space]. by destruct (recorded + sz >? max).
  - cbn [free_space]. destruct (recorded + sz >? max); [|by exists []].
    destruct (JsString.truthy k); [|by exists []].
    destruct (IH (recorded - size d)) as [evicted Hev].
    exists ((k, d) :: evicted). cbn [app]. by rewrite <- Hev.
Qed.

(** X20. An item that is larger than the budget is refused and the
    cache stays as it is. Every other item is accepted and is what
    [getFromMemoryCache] gives for its key afterwards; room is made by
    dropping entries from the front of the map, the oldest first, and an
    entry that is still found under another key is one that the map held
    before. *)
Theorem X20_memory_cache_round_trip key (data : Data) st :
  (size data > maxMemoryCacheSize st ->
   cacheInMemory JSON_stringify key data st = (false, st)) /\
  (size data <= maxMemoryCacheSize st ->
   let r := cacheInMemory JSON_stringify key data st in
   r.1 = true /\
   getFromMemoryCache key r.2 = Some data /\
   maxMemoryCacheSize r.2 = maxMemoryCacheSize st /\
   (exists evicted rest,
      memoryCache st = (evicted ++ rest)%list /\
      memoryCache r.2 = map_set key data rest) /\
   (forall key' d, key' <> key ->
      getFromMemoryCache key' r.2 = Some d -> In (key', d) (memoryCache st))).
Proof.
  split; [apply cacheInMemory_too_large|].
  intros Hfit. cbv zeta. unfold cacheInMemory.
  destruct (Z.gtb_spec (size data) (maxMemoryCacheSize st)) as [Hbig|_]; [lia|].
  destruct (free_space_suffix (size data) (maxMemoryCacheSize st)
              (memoryCache st) (memoryCacheSize st)) as [evicted Hev].
  destruct (free_space JSON_stringify (size data) (maxMemoryCacheSize st)
              (memoryCache st) (memoryCacheSize st)) as [rest recorded].
  cbn [fst snd] in *. unfold getFromMemoryCache. cbn [memoryCache maxMemoryCacheSize].
  split; [reflexivity|]. split; [apply map_get_map_set|]. split; [reflexivity|]. split.
  - by exists evicted, rest.
  - intros key' d Hne Hget. rewrite map_get_map_set_ne in Hget by done.
    rewrite Hev. apply in_or_app. right. by apply map_get_In.
Qed.

Lemma total_map_set key (data : Data) entries :
  total (map_set key data entries) <= total entries + size data.
Proof.
  unfold total_size.
  induction entries as [|[k d] entries IH]; cbn [map_set fold_right snd]; [lia|].
  destruct (String.eqb k key); cbn [fold_right snd].
  - pose proof (size_nonneg JSON_stringify d). lia.
  - lia.
Qed.

Lemma truthy_map_set key (data : Data) entries :
  JsString.truthy key = true ->
  Forall (fun e => JsString.truthy (fst e) = true) entries ->
  Forall (fun e => JsString.truthy (fst e) = true) (map_set key data entries).
Proof.
  intros Hkey. induction entries as [|[k d] entries IH]; intros Hall; cbn [map_set].
  - by constructor.
  - apply Forall_cons in Hall as [Hk Hall].
    destruct (String.eqb k key); constructor; auto.
Qed.

(** The eviction loop on a map whose keys are truthy and which holds no
    more than is recorded: it stops with room for the item or with an
    empty map, and what is left holds no more than is recorded. *)
Lemma free_space_bounded sz max : forall entries recorded,
  total entries <= recorded ->
  Forall (fun e => JsString.truthy (fst e) = true) entries ->
  exists rest recorded',
    free_space JSON_stringify sz max entries recorded = (rest, recorded') /\
    total rest <= recorded' /\
    Forall (fun e => JsString.truthy (fst e) = true) rest /\
    (recorded' + sz <= max \/ rest = []).
Proof.
  induction entries as [|[k d] entries IH]; intros recorded Hrec Hkeys.
  - exists [], recorded. cbn [free_space].
    destruct (recorded + sz >? max); repeat split; auto.
  - cbn [free_space]. destruct (Z.gtb_spec (recorded + sz) max) as [Hgt|Hle].
    + apply Forall_cons in Hkeys as [Hk Hkeys]. cbn [fst] in Hk. rewrite Hk.
      apply IH; [|done].
      unfold total_size in *. cbn [fold_right snd] in Hrec. lia.
    + exists ((k, d) :: entries), recorded. repeat split; auto.
Qed.

(** What the invariant of the next theorem needs of one call. *)
Lemma cacheInMemory_bounded key (data : Data) st :
  JsString.truthy key = true ->
  held_size JSON_stringify st <= memoryCacheSize st ->
  held_size JSON_stringify st <= maxMemoryCacheSize st ->
  Forall (fun e => JsString.truthy (fst e) = true) (memoryCache st) ->
  let st' := (cacheInMemory JSON_stringify key data st).2 in
  held_size JSON_stringify st' <= memoryCacheSize st' /\
  held_size JSON_stringify st' <= maxMemoryCacheSize st' /\
  Forall (fun e => JsString.truthy (fst e) = true) (memoryCache st') /\
  maxMemoryCacheSize st' = maxMemoryCacheSize st.
Proof.
  intros Hkey Hrec Hmax Hkeys. cbv zeta. unfold cacheInMemory.
  destruct (Z.gtb_spec (size data) (maxMemoryCacheSize st)) as [Hbig|Hfit];
    [by repeat split|].
  destruct (free_space_bounded (size data) (maxMemoryCacheSize st)
              (memoryCache st) (memoryCacheSize st) Hrec Hkeys)
    as (rest & recorded' & Heq & Hrest & Hkeys' & Hroom).
  rewrite Heq. cbn [snd]. unfold held_size.
  cbn [memoryCache memoryCacheSize maxMemoryCacheSize].
  pose proof (total_map_set key data rest) as Hset.
  split; [lia|]. split; [|split; [by apply truthy_map_set | reflexivity]].
  destruct Hroom as [Hroom| ->]; [lia|].
  cbn [map_set total_size fold_right snd]. lia.
Qed.

(** X21. Whatever calls of [cacheInMemory] a new cache gets, with keys
    that are not empty, also calls that write a key again: the entries
    that the map holds never add up to more than the budget of 50 MB,
    nor to more than the recorded size (which may itself pass the
    budget). *)
Theorem X21_held_size_stays_within_budget (calls : list (string * Data)) :
  Forall (fun call => JsString.truthy (fst call) = true) calls ->
  let st := cacheAll JSON_stringify calls setupMemoryCache in
  held_size JSON_stringify st <= maxMemoryCacheSize st /\
  held_size JSON_stringify st <= memoryCacheSize st /\
  maxMemoryCacheSize st = 50 * 1024 * 1024.
Proof.
  intros Hcalls. cbv zeta.
  assert (Hinv : forall st,
            held_size JSON_stringify st <= memoryCacheSize st ->
            held_size JSON_stringify st <= maxMemoryCacheSize st ->
            Forall (fun e => JsString.truthy (fst e) = true) (memoryCache st) ->
            let st' := cacheAll JSON_stringify calls st in
            held_size JSON_stringify st' <= maxMemoryCacheSize st' /\
            held_size JSON_stringify st' <= memoryCacheSize st' /\
            maxMemoryCacheSize st' = maxMemoryCacheSize st).
  { induction Hcalls as [|[key data] calls Hkey Hcalls IH]; intros st Hrec Hmax Hkeys.
    - by repeat split.
    - cbv zeta. unfold cacheAll. cbn [fold_left fst snd].
      destruct (cacheInMemory_bounded key data st Hkey Hrec Hmax Hkeys)
        as (Hrec' & Hmax' & Hkeys' & Hsame).
      destruct (IH _ Hrec' Hmax' Hkeys') as (H1 & H2 & H3).
      unfold cacheAll in H1, H2, H3. repeat split; [exact H1 | exact H2 |].
      by rewrite H3. }
  apply (Hinv setupMemoryCache);
    unfold held_size; cbn [setupMemoryCache memoryCache memoryCacheSize maxMemoryCacheSize
                           total_size fold_right]; [lia | lia | constructor].
Qed.

End MemoryCacheMore.

Section MemoryCacheSamples.
Import PerformanceOptimizer.

Lemma X20_stored_string_witness :
  let r := cacheInMemory stringify_letters "a" "abc" setupMemoryCache in
  r.1 = true /\ getFromMemoryCache "a" r.2 = Some "abc".
Proof.
  cbv zeta.
  destruct (proj2 (X20_memory_cache_round_trip stringify_letters "a" "abc" setupMemoryCache))
    as (Hacc & Hget & _).
  - vm_compute. discriminate.
  - by split.
Defined.

Lemma X21_overwritten_key_witness :
  let st := cacheAll stringify_letters [("a", "abc"); ("a", "abcd"); ("b", "ab")]
              setupMemoryCache in
  held_size stringify_letters st <= maxMemoryCacheSize st /\
  held_size stringify_letters st <= memoryCacheSize st /\
  maxMemoryCacheSize st = 50 * 1024 * 1024.
Proof.
  apply (X21_held_size_stays_within_budget stringify_letters
           [("a", "abc"); ("a", "abcd"); ("b", "ab")]).
  repeat constructor.
Defined.

End MemoryCacheSamples.

(* ===================================================================== *)
(** ** Properties of the rounds of the queue, of the data-saving mode
       and of preloading *)
(* ===================================================================== *)

Section ResourceQueueRounds.
Import PerformanceOptimizer PerformanceOptimizerPage.

Lemma processResourceQueue_spec (isOnline : bool) queue :
  processResourceQueue isOnline queue =
    (map url (firstn (maxConcurrent isOnline) queue),
     skipn (maxConcurrent isOnline) queue,
     (0 <? length (map url (firstn (maxConcurrent isOnline) queue)))%nat
     && (0 <? length (skipn (maxConcurrent isOnline) queue))%nat).
Proof.
  unfold processResourceQueue. rewrite start_loads_spec.
  cbn [length app]. by rewrite Nat.sub_0_r.
Qed.

Lemma maxConcurrent_bounds (isOnline : bool) :
  (2 <= maxConcurrent isOnline <= 6)%nat.
Proof. destruct isOnline; cbn; lia. Qed.

(** X22. The calls of [processResourceQueue] that follow one another
    start every queued load once and in the order of the queue: the
    batches, one after the other, and the URLs of the items left in the
    queue make up the URLs of the queue. No batch has more than six
    loads, and the queue is empty at the end when there were at least
    half as many calls as items. *)
Theorem X22_rounds_start_each_load_once (isOnline : list bool) queue :
  let r := processResourceQueue_rounds isOnline queue in
  (concat r.1 ++ map url r.2)%list = map url queue /\
  Forall (fun batch => (length batch <= 6)%nat) r.1 /\
  ((length queue <= 2 * length isOnline)%nat -> r.2 = []).
Proof.
  cbv zeta. revert queue.
  induction isOnline as [|online later IH]; intros queue.
  - cbn [processResourceQueue_rounds fst snd concat app]. repeat split; [constructor|].
    cbn [length]. intros H. destruct queue; [reflexivity | cbn [length] in H; lia].
  - cbn [processResourceQueue_rounds]. rewrite processResourceQueue_spec.
    pose proof (maxConcurrent_bounds online) as Hlimit.
    set (limit := maxConcurrent online) in *.
    assert (Hbatch : (length (map url (firstn limit queue)) <= 6)%nat).
    { rewrite length_map, length_firstn. lia. }
    destruct ((0 <? length (map url (firstn limit queue)))%nat
              && (0 <? length (skipn limit queue))%nat) eqn:Hagain.
    + specialize (IH (skipn limit queue)).
      destruct (processResourceQueue_rounds later (skipn limit queue)) as [batches rest].
      cbn [fst snd] in *. destruct IH as (Hall & Hsizes & Hempty).
      split; [|split].
      * cbn [concat]. rewrite <- app_assoc, Hall, <- map_app. by rewrite firstn_skipn.
      * by constructor.
      * intros Hlen. apply Hempty. rewrite length_skipn. cbn [length] in Hlen. lia.
    + cbn [fst snd concat]. rewrite app_nil_r, <- map_app, firstn_skipn.
      split; [reflexivity|]. split; [constructor; [exact Hbatch | constructor]|]. intros _.
      apply andb_false_iff in Hagain as [H|H]; apply Nat.ltb_ge in H.
      * rewrite length_map, length_firstn in H.
        assert (Hq : length queue = 0%nat) by lia.
        destruct queue; [by rewrite skipn_nil | discriminate Hq].
      * destruct (skipn limit queue); [reflexivity | cbn [length] in H; lia].
Qed.

Lemma X22_seven_loads_witness :
  let r := processResourceQueue_rounds [true; false; false; false] seven in
  (concat r.1 ++ map url r.2)%list = map url seven /\ r.2 = [].
Proof.
  cbv zeta.
  destruct (X22_rounds_start_each_load_once [true; false; false; false] seven)
    as (Hall & _ & Hempty).
  split; [exact Hall|]. apply Hempty. cbn. lia.
Defined.

End ResourceQueueRounds.

Section DataSavingFacts.
Import PerformanceOptimizerPage.




Lemma restore_lower_quality document img :
  originalSrc img = None -> restore_quality document (lower_quality img) = img.
Proof.
  destruct img as [s o]. cbn [originalSrc]. intros ->.
  unfold lower_quality, has_original. cbn [src originalSrc negb].
  rewrite andb_true_r. destruct (JsString.truthy s) eqn:E; [|reflexivity].
  unfold restore_quality. cbn [originalSrc]. by rewrite E.
Qed.

(** X24. On a page where no image has a [data-original-src] attribute,
    leaving the data-saving mode gives every image the URL that it had
    before the mode was entered, and the body its classes when the mode
    class was not among them. In the mode, an image with a URL has the
    low-quality URL and keeps the old one as original. The media
    elements are not put back: they stay paused, with [preload] set to
    [none]. *)
Theorem X24_data_saving_round_trip page :
  (forall img, In img (images page) -> originalSrc img = None) ->
  let on := enableDataSavingMode page in
  let off := disableDataSavingMode on in
  images off = images page /\
  (~ In "data-saving-mode" (bodyClassList page) -> bodyClassList off = bodyClassList page) /\
  ~ In "data-saving-mode" (bodyClassList off) /\
  (forall (i : nat) img, images page !! i = Some img -> JsString.truthy (src img) = true ->
     images on !! i = Some {| src := generateLowQualityVersion (src img);
                              originalSrc := Some (src img) |}) /\
  media off = map (fun el => {| paused := true; preload := "none" |}) (media page).
Proof.
  intros Hnone. cbv zeta.
  unfold disableDataSavingMode, enableDataSavingMode.
  cbn [documentURL bodyClassList media images].
  split; [|split; [|split; [|split]]].
  - rewrite map_map. rewrite <- (map_id (images page)) at 2.
    apply map_ext_in. intros img Hin. by apply restore_lower_quality, Hnone.
  - apply classList_remove_add_absent.
  - apply not_In_classList_remove.
  - intros i img Hi Hsrc. rewrite list_lookup_fmap, Hi. cbn [fmap option_fmap option_map].
    unfold lower_quality, has_original.
    rewrite (Hnone img) by (apply list_elem_of_In; by eapply list_elem_of_lookup_2).
    by rewrite Hsrc.
  - reflexivity.
Qed.

Lemma X24_two_images_witness :
  let page := {| documentURL := "https://example.com/";
                 bodyClassList := ["page"];
                 media := [ {| paused := false; preload := "auto" |} ];
                 images := [ {| src := "https://example.com/a.png"; originalSrc := None |};
                             {| src := "https://example.com/b.png?v=2"; originalSrc := None |} ] |} in
  images (disableDataSavingMode (enableDataSavingMode page)) = images page /\
  bodyClassList (disableDataSavingMode (enableDataSavingMode page)) = ["page"].
Proof.
  cbv zeta.
  set (page := {| documentURL := _; bodyClassList := ["page"]; media := _; images := _ |}).
  assert (Hnone : forall img, In img (images page) -> originalSrc img = None)
    by (intros img [<-|[<-|[]]]; reflexivity).
  destruct (X24_data_saving_round_trip page Hnone) as (Himg & Hbody & _).
  split; [exact Himg|]. apply Hbody.
  cbn. intros [H|[]]. discriminate H.
Defined.

End DataSavingFacts.

Section PreloadFacts.
Import PerformanceOptimizerPage.

Lemma href_call_link c : href (call_link c) = call_url c.
Proof.
  destruct c as [url type|url]; [|reflexivity]. cbn [call_link call_url].
  unfold preload_link.
  destruct (String.eqb type "auto"); [|reflexivity].
  destruct (JsString.endsWith ".css" url); [reflexivity|].
  by destruct (JsString.endsWith ".js" url).
Qed.

Lemma run_call_spec st c :
  run_call st c =
    if decide (call_url c ∈ loadedModules st) then st
    else {| loadedModules := {[ call_url c ]} ∪ loadedModules st;
            links := links st ++ [call_link c] |}.
Proof. by destruct c. Qed.

Lemma run_calls_snoc calls c st :
  run_calls (calls ++ [c]) st = run_call (run_calls calls st) c.
Proof. unfold run_calls. by rewrite fold_left_app. Qed.

Lemma loaded_run_calls calls : forall st u,
  u ∈ loadedModules (run_calls calls st) <->
  u ∈ loadedModules st \/ In u (map call_url calls).
Proof.
  induction calls as [|c calls IH]; intros st u.
  - cbn. tauto.
  - change (run_calls (c :: calls) st) with (run_calls calls (run_call st c)).
    rewrite IH, run_call_spec. cbn [map In].
    destruct (decide (call_url c ∈ loadedModules st)) as [Hin|Hout].
    + split; [tauto|]. intros [H|[<-|H]]; tauto.
    + cbn [loadedModules]. rewrite elem_of_union, elem_of_singleton.
      split; [intros [[->|H]|H]; tauto | intros [H|[<-|H]]; tauto].
Qed.

Lemma links_invariant calls : forall st,
  NoDup (map href (links st)) ->
  (forall l, In l (links st) -> href l ∈ loadedModules st) ->
  NoDup (map href (links (run_calls calls st))) /\
  (forall l, In l (links (run_calls calls st)) ->
     href l ∈ loadedModules (run_calls calls st)).
Proof.
  induction calls as [|c calls IH]; intros st Hnd Hsub; [by split|].
  change (run_calls (c :: calls) st) with (run_calls calls (run_call st c)).
  apply IH; rewrite run_call_spec;
    destruct (decide (call_url c ∈ loadedModules st)) as [Hin|Hout]; try done;
    cbn [links loadedModules].
  - rewrite map_app. cbn [map]. rewrite href_call_link.
    apply NoDup_app. split; [done|]. split; [|apply NoDup_singleton].
    intros u Hu Hu'. apply list_elem_of_singleton in Hu'. subst u.
    apply list_elem_of_In, in_map_iff in Hu as (l & Hl & Hin).
    apply Hout. rewrite <- Hl. by apply Hsub.
  - intros l Hl. apply in_app_or in Hl as [Hl|[<-|[]]].
    + apply elem_of_union_r. by apply Hsub.
    + apply elem_of_union_l. rewrite href_call_link. by apply elem_of_singleton.
Qed.

(** The links after a sequence of calls: those from before and, for each
    URL that was not loaded, the link of the first call for it. *)
Lemma links_run_calls calls : forall st l,
  In l (links (run_calls calls st)) <->
  In l (links st) \/
  exists (i : nat) c,
    calls !! i = Some c /\ l = call_link c /\ (call_url c ∉ loadedModules st) /\
    forall (j : nat) c', (j < i)%nat -> calls !! j = Some c' -> call_url c' <> call_url c.
Proof.
  induction calls as [|c calls IH] using rev_ind; intros st l.
  - cbn. split; [tauto|]. intros [H|(i & c & Hi & _)]; [done|]. by destruct i.
  - rewrite run_calls_snoc, run_call_spec.
    assert (Hlast : forall c0, (calls ++ [c])%list !! length calls = Some c0 -> c0 = c).
    { intros c0 H. rewrite lookup_app_r, Nat.sub_diag in H by lia. by injection H. }
    assert (Hseen : call_url c ∈ loadedModules (run_calls calls st) <->
                    call_url c ∈ loadedModules st \/
                    exists (j : nat) c', calls !! j = Some c' /\ call_url c' = call_url c).
    { rewrite loaded_run_calls. split; (intros [H|H]; [by left | right]).
      - apply in_map_iff in H as (c' & Hc' & Hin).
        apply list_elem_of_In, list_elem_of_lookup_1 in Hin as [j Hj]. by exists j, c'.
      - destruct H as (j & c' & Hj & Hc'). apply in_map_iff. exists c'. split; [done|].
        apply list_elem_of_In. by eapply list_elem_of_lookup_2. }
    destruct (decide (call_url c ∈ loadedModules (run_calls calls st))) as [Hin|Hout].
    + rewrite IH. split; (intros [H|(i & c0 & Hi & Hl & Hnew & Hfirst)]; [by left | right]).
      * pose proof (lookup_lt_Some _ _ _ Hi) as Hlt.
        exists i, c0. rewrite lookup_app_l by done. repeat split; try done.
        intros j c' Hj Hc'. rewrite lookup_app_l in Hc' by lia. by eapply Hfirst.
      * destruct (decide (i < length calls)%nat) as [Hlt|Hge].
        -- exists i, c0. rewrite lookup_app_l in Hi by done. repeat split; try done.
           intros j c' Hj Hc'. apply (Hfirst j c' Hj). by rewrite lookup_app_l by lia.
        -- pose proof (lookup_lt_Some _ _ _ Hi) as Hlt. rewrite length_app in Hlt.
           cbn [length] in Hlt. assert (i = length calls) by lia. subst i.
           apply Hlast in Hi. subst c0. exfalso.
           apply Hseen in Hin as [Hin|(j & c' & Hj & Hc')]; [done|].
           apply (Hfirst j c'); [by eapply lookup_lt_Some | by rewrite lookup_app_l by (by eapply lookup_lt_Some) | done].
    + cbn [links]. rewrite in_app_iff, IH. cbn [In]. split.
      * intros [[H|(i & c0 & Hi & Hl & Hnew & Hfirst)]|[<-|[]]]; [by left | right | right].
        -- pose proof (lookup_lt_Some _ _ _ Hi) as Hlt.
           exists i, c0. rewrite lookup_app_l by done. repeat split; try done.
           intros j c' Hj Hc'. rewrite lookup_app_l in Hc' by lia. by eapply Hfirst.
        -- exists (length calls), c.
           rewrite lookup_app_r, Nat.sub_diag by lia.
           split; [done|]. split; [reflexivity|]. split.
           ++ intros Hst. apply Hout, Hseen. by left.
           ++ intros j c' Hj Hc' Heq. rewrite lookup_app_l in Hc' by done.
              apply Hout, Hseen. right. by exists j, c'.
      * intros [H|(i & c0 & Hi & Hl & Hnew & Hfirst)]; [by left; left|].
        destruct (decide (i < length calls)%nat) as [Hlt|Hge].
        -- left. right. exists i, c0. rewrite lookup_app_l in Hi by done.
           repeat split; try done.
           intros j c' Hj Hc'. apply (Hfirst j c' Hj). by rewrite lookup_app_l by lia.
        -- pose proof (lookup_lt_Some _ _ _ Hi) as Hlt. rewrite length_app in Hlt.
           cbn [length] in Hlt. assert (i = length calls) by lia. subst i.
           apply Hlast in Hi. subst c0. right. by left.
Qed.

(** X25. Whatever calls of [preloadResource] and [predictivePreload] an
    optimizer gets, in any order: the head of the document gets one link
    for each URL that was not loaded before, the link of the first call
    for that URL, so that a URL that was prefetched first is never
    preloaded; no two of the links have the same URL; and every URL of a
    call is in [loadedModules]. *)
Theorem X25_first_call_for_a_url_wins (loaded : gset string) calls :
  let st := run_calls calls {| loadedModules := loaded; links := [] |} in
  NoDup (map href (links st)) /\
  (forall l, In l (links st) <->
     exists (i : nat) c,
       calls !! i = Some c /\ l = call_link c /\ (call_url c ∉ loaded) /\
       forall (j : nat) c', (j < i)%nat -> calls !! j = Some c' -> call_url c' <> call_url c) /\
  (forall u, u ∈ loadedModules st <-> u ∈ loaded \/ In u (map call_url calls)).
Proof.
  cbv zeta. split; [|split].
  - apply links_invariant; cbn [links map]; [constructor | intros l []].
  - intros l. rewrite links_run_calls. cbn [links loadedModules In]. tauto.
  - intros u. by rewrite loaded_run_calls.
Qed.

End PreloadFacts.

Example includes_slash : JsString.includes "/" "https://example.com/api/data" = true.
Proof. reflexivity. Qed.

Example endsWith_png : JsString.endsWith ".png" "http://h/a.png" = true.
Proof. reflexivity. Qed.

Example parseInt_ms : JsString.parseInt "1700000000000" = Some 1700000000000.
Proof. reflexivity. Qed.

Example parseInt_hex : JsString.parseInt " -0x1f;" = Some (-31).
Proof. reflexivity. Qed.

Example parseInt_nan : JsString.parseInt "abc" = None.
Proof. reflexivity. Qed.

Example parseInt_nbsp :
  JsString.parseInt (String (ascii_of_nat 160) "123") = Some 123.
Proof. reflexivity. Qed.

Example toString_ms : JsString.toString 1700000000000 = "1700000000000".
Proof. reflexivity. Qed.

Example toString_zero : JsString.toString 0 = "0".
Proof. reflexivity. Qed.
